(** * Aladdin resume fallback parser: [scripts/parse_pdf.py]

    A shallow embedding of the section classifier, the structure builder
    and the orchestrator of [scripts/parse_pdf.py], and the properties
    its specification states about them. *)

From Stdlib Require Import NArith ZArith List String Ascii Lia Bool.
From Stdlib Require Import DecimalString HexadecimalString.
From stdpp Require Import gmap strings list fin_maps.
Import ListNotations.

#[local] Set Warnings "-register-all".

Local Open Scope N_scope.
Local Open Scope list_scope.

(** ** Python strings

    A Python [str] is a sequence of Unicode code points. *)

Definition char : Type := N.
Definition str : Type := list char.

(** An ASCII literal of the source, as a [str]. *)
Definition py (s : string) : str :=
  map N_of_ascii (list_ascii_of_string s).

Definition nl : char := 10.
Definition is_ascii (c : char) : Prop := c < 128.

(** The character database behind [str.strip], [str.split], [str.lower]
    and the classes [\s], [\d], [\w] of [re] on [str] patterns.  Its
    tables depend on the Unicode version of the interpreter, so the
    embedding takes them as a parameter; [str.lower] maps whole strings
    (it is context sensitive and may change the length). *)
Record Unicode : Type := {
  u_isspace : char -> bool;
  u_isdecimal : char -> bool;
  u_isalnum : char -> bool;
  u_lower : str -> str
}.

(** The ASCII rows of those tables, which every Unicode version shares. *)
Definition ascii_isspace (c : char) : bool :=
  ((9 <=? c) && (c <=? 13)) || ((28 <=? c) && (c <=? 32)).
Definition ascii_isdecimal (c : char) : bool :=
  (48 <=? c) && (c <=? 57).
Definition ascii_isalnum (c : char) : bool :=
  ascii_isdecimal c || ((65 <=? c) && (c <=? 90)) || ((97 <=? c) && (c <=? 122)).
Definition ascii_lower_char (c : char) : char :=
  if (65 <=? c) && (c <=? 90) then c + 32 else c.

Definition ascii_tables : Unicode := {|
  u_isspace := ascii_isspace;
  u_isdecimal := ascii_isdecimal;
  u_isalnum := ascii_isalnum;
  u_lower := map ascii_lower_char
|}.

Record ascii_compatible (U : Unicode) : Prop := {
  ac_isspace : forall c, is_ascii c -> u_isspace U c = ascii_isspace c;
  ac_isdecimal : forall c, is_ascii c -> u_isdecimal U c = ascii_isdecimal c;
  ac_isalnum : forall c, is_ascii c -> u_isalnum U c = ascii_isalnum c;
  ac_lower : forall s, Forall is_ascii s -> u_lower U s = map ascii_lower_char s
}.

(** ** String methods *)

Section StrMethods.
Context (U : Unicode).

Fixpoint lstrip (s : str) : str :=
  match s with
  | c :: s' => if u_isspace U c then lstrip s' else s
  | [] => []
  end.

Definition rstrip (s : str) : str := rev (lstrip (rev s)).

(** [s.strip()] *)
Definition strip (s : str) : str := rstrip (lstrip s).

(** [s.split()]: the maximal runs of non-whitespace characters. *)
Fixpoint split_ws (s : str) : list str :=
  match s with
  | [] => []
  | c :: s' =>
      if u_isspace U c then split_ws s'
      else match s' with
           | [] => [[c]]
           | c' :: _ =>
               if u_isspace U c' then [c] :: split_ws s'
               else match split_ws s' with
                    | w :: ws => (c :: w) :: ws
                    | [] => [[c]]
                    end
           end
  end.
End StrMethods.

(** [s.split(sep)] for a one-character separator: empty pieces are kept. *)
Fixpoint split_on (sep : char) (s : str) : list str :=
  match s with
  | [] => [[]]
  | c :: s' =>
      if c =? sep then [] :: split_on sep s'
      else match split_on sep s' with
           | w :: ws => (c :: w) :: ws
           | [] => [[c]]
           end
  end.

(** [sep.join(l)] *)
Fixpoint join (sep : str) (l : list str) : str :=
  match l with
  | [] => []
  | [x] => x
  | x :: l' => x ++ sep ++ join sep l'
  end.

(** ** The fragment of [re] the script uses

    Every pattern of the script is a sequence of single-character
    classes under a greedy quantifier, with [^] and [$] anchors. *)

Inductive item : Type :=
| Rep (cls : char -> bool) (lo : nat) (hi : option nat)
| Bol
| Eol.

Definition regex : Type := list item.

Definition room (hi : option nat) : bool :=
  match hi with Some O => false | _ => true end.
Definition less (hi : option nat) : option nat :=
  match hi with Some h => Some (Nat.pred h) | None => None end.

(** A greedy repetition: take a character when the class and the upper
    bound allow it, and fall back to stopping here when the rest of the
    pattern fails further on. [pos] is the offset in the subject, [k]
    the rest of the pattern. *)
Fixpoint rep (cls : char -> bool) (k : nat -> str -> option nat)
    (lo : nat) (hi : option nat) (pos : nat) (s : str) : option nat :=
  let stop := match lo with O => k pos s | _ => None end in
  match s with
  | c :: s' =>
      if cls c && room hi then
        match rep cls k (Nat.pred lo) (less hi) (S pos) s' with
        | Some e => Some e
        | None => stop
        end
      else stop
  | [] => stop
  end.

(** [$] without MULTILINE: at the end, or before a final newline. *)
Definition at_end (s : str) : bool :=
  match s with
  | [] => true
  | [c] => c =? nl
  | _ => false
  end.

(** Match [r] against the subject's suffix [s] that starts at offset
    [pos]; the result is the offset where the match ends. *)
Fixpoint match_items (r : regex) (pos : nat) (s : str) : option nat :=
  match r with
  | [] => Some pos
  | Rep cls lo hi :: r' => rep cls (match_items r') lo hi pos s
  | Bol :: r' => if Nat.eqb pos 0 then match_items r' pos s else None
  | Eol :: r' => if at_end s then match_items r' pos s else None
  end.

(** [re.match(r, s)] as a truth value. *)
Definition re_match (r : regex) (s : str) : bool :=
  match match_items r 0 s with Some _ => true | None => false end.

Fixpoint search_from (r : regex) (pos : nat) (s : str) : option (nat * nat) :=
  match match_items r pos s with
  | Some e => Some (pos, e)
  | None => match s with
            | [] => None
            | _ :: s' => search_from r (S pos) s'
            end
  end.

(** [re.search(r, s)]: the span of the leftmost match. *)
Definition re_search (r : regex) (s : str) : option (nat * nat) :=
  search_from r 0 s.

(** [m.group(0)] *)
Definition group0 (s : str) (m : nat * nat) : str :=
  take (snd m - fst m)%nat (drop (fst m) s).

Definition lit1 (a : char) : item := Rep (N.eqb a) 1 (Some 1%nat).
Definition lit (p : str) : regex := map lit1 p.
Definition star (cls : char -> bool) : item := Rep cls 0 None.
Definition plus (cls : char -> bool) : item := Rep cls 1 None.
Definition opt (cls : char -> bool) : item := Rep cls 0 (Some 1%nat).
Definition exactly (n : nat) (cls : char -> bool) : item := Rep cls n (Some n).

Definition ch (a : ascii) : char := N_of_ascii a.
Definition is_ch (a : ascii) : char -> bool := N.eqb (ch a).

(** ** Exceptions *)

(** The exceptions of the model. [SystemExit] is the one that is not a
    subclass of [Exception]; [EngineError] stands for whatever exception
    (a subclass of [Exception]) an external engine raises, [HostError]
    for the [OSError] or [UnicodeEncodeError] of a call of the
    interpreter itself ([os.makedirs], [open], [f.write], [print]). *)
Inductive exn : Type :=
| KeyError (k : string)
| TypeError
| IndexError
| RuntimeError (msg : str)
| EngineError (msg : str)
| HostError (msg : str)
| SystemExit (code : Z).

Inductive result (A : Type) : Type :=
| Ok (a : A)
| Raise (e : exn).
Arguments Ok {A} a.
Arguments Raise {A} e.

#[global] Instance result_ret : MRet result := fun A a => Ok a.
#[global] Instance result_bind : MBind result := fun A B f m =>
  match m with
  | Ok a => f a
  | Raise e => Raise e
  end.

(** ** Dictionaries and JSON values

    The record under construction is a [dict] of strings, lists and
    dicts; insertion order is kept, as [json.dump] writes it. *)

Inductive json : Type :=
| JStr (s : str)
| JList (l : list json)
| JDict (d : list (string * json)).

Definition dict : Type := list (string * json).

Fixpoint dict_get {V : Type} (k : string) (d : list (string * V)) : option V :=
  match d with
  | [] => None
  | (k', v) :: d' => if String.eqb k k' then Some v else dict_get k d'
  end.

(** [d[k] = v]: replaces the value in place, or appends a new key. *)
Fixpoint dict_set {V : Type} (k : string) (v : V) (d : list (string * V))
    : list (string * V) :=
  match d with
  | [] => [(k, v)]
  | (k', v') :: d' =>
      if String.eqb k k' then (k', v) :: d' else (k', v') :: dict_set k v d'
  end.

(** [d[k]] *)
Definition getitem {V : Type} (d : list (string * V)) (k : string) : result V :=
  match dict_get k d with
  | Some v => Ok v
  | None => Raise (KeyError k)
  end.

(** [d[k1][k2] = v] on a dict of dicts. *)
Definition setitem2 (d : dict) (k1 k2 : string) (v : json) : result dict :=
  inner ← getitem d k1;
  match inner with
  | JDict d1 => Ok (dict_set k1 (JDict (dict_set k2 v d1)) d)
  | _ => Raise TypeError
  end.

(** ** Section classifier *)

(** [SECTION_HEADERS], in declaration order. *)
Definition SECTION_HEADERS : list (string * list str) :=
  [ ("summary"%string,
      [py "summary"; py "profile"; py "objective"; py "about me"]);
    ("experience"%string,
      [py "experience"; py "employment"; py "work history";
       py "professional experience"]);
    ("education"%string,
      [py "education"; py "academic background"; py "qualifications"]);
    ("skills"%string,
      [py "skills"; py "technologies"; py "core competencies";
       py "technical skills"]);
    ("projects"%string,
      [py "projects"; py "personal projects"; py "key projects"]) ].

Section Parser.
Context (U : Unicode).

(** [\s], [\d], [\w] *)
Definition cls_s : char -> bool := u_isspace U.
Definition cls_d : char -> bool := u_isdecimal U.
Definition cls_w (c : char) : bool := u_isalnum U c || is_ch "_" c.

(** [rf'^\s*{pattern}\s*$'] *)
Definition header_re (pattern : str) : regex :=
  [Bol; star cls_s] ++ lit pattern ++ [star cls_s; Eol].

(** [rf'^\s*{pattern}[:]?\s*$'] *)
Definition header_colon_re (pattern : str) : regex :=
  [Bol; star cls_s] ++ lit pattern ++ [opt (is_ch ":"); star cls_s; Eol].

(** The test of one pattern: the two [re.match] calls, then the cap on
    the tokens of the line as given. *)
Definition pattern_hit (line line_lower pattern : str) : bool :=
  (re_match (header_re pattern) line_lower
   || re_match (header_colon_re pattern) line_lower)
  && (length (split_ws U line) <=? 4)%nat.

(** The inner loop over the patterns of one section. *)
Fixpoint scan_patterns (section : string) (patterns : list str)
    (line line_lower : str) : option string :=
  match patterns with
  | [] => None
  | pattern :: rest =>
      if pattern_hit line line_lower pattern then Some section
      else scan_patterns section rest line line_lower
  end.

(** The outer loop over [SECTION_HEADERS.items()]. *)
Fixpoint scan_sections (headers : list (string * list str))
    (line line_lower : str) : option string :=
  match headers with
  | [] => None
  | (section, patterns) :: rest =>
      match scan_patterns section patterns line line_lower with
      | Some s => Some s
      | None => scan_sections rest line line_lower
      end
  end.

Definition is_header (line : str) : option string :=
  let line_lower := u_lower U (strip U line) in
  scan_sections SECTION_HEADERS line line_lower.

(** ** Structure builder *)

(** [r'[\w\.-]+@[\w\.-]+\.\w+'] *)
Definition EMAIL_RE : regex :=
  let local c := cls_w c || is_ch "." c || is_ch "-" c in
  [plus local; lit1 (ch "@"); plus local; lit1 (ch "."); plus cls_w].

(** [r'\(?\d{3}\)?[\s.-]?\d{3}[\s.-]?\d{4}'] *)
Definition PHONE_RE : regex :=
  let sep c := cls_s c || is_ch "." c || is_ch "-" c in
  [opt (is_ch "("); exactly 3 cls_d; opt (is_ch ")"); opt sep;
   exactly 3 cls_d; opt sep; exactly 4 cls_d].

Definition section_buffers0 : gmap string (list str) :=
  list_to_map
    [("basics"%string, []); ("summary"%string, []);
     ("experience"%string, []); ("education"%string, []);
     ("skills"%string, []); ("projects"%string, [])].

(** The truth value of what [is_header] returns. *)
Definition truthy (detected : option string) : bool :=
  match detected with
  | Some s => negb (String.eqb s "")
  | None => false
  end.

(** One iteration of the loop of pass 1, on the pair of
    [current_section] and [section_buffers]. *)
Definition bin_line (st : string * gmap string (list str)) (line : str)
    : string * gmap string (list str) :=
  let '(current_section, section_buffers) := st in
  let clean_line := strip U line in
  match clean_line with
  | [] => st
  | _ =>
      let detected := is_header clean_line in
      match detected with
      | Some section =>
          if truthy detected then (section, section_buffers)
          else match section_buffers !! current_section with
               | Some buf =>
                   (current_section,
                    <[current_section := buf ++ [clean_line]]> section_buffers)
               | None => st
               end
      | None =>
          match section_buffers !! current_section with
          | Some buf =>
              (current_section,
               <[current_section := buf ++ [clean_line]]> section_buffers)
          | None => st
          end
      end
  end.

Definition pass1 (lines : list str) : string * gmap string (list str) :=
  fold_left bin_line lines ("basics"%string, section_buffers0).

(** [section_buffers[k]] *)
Definition buffer (section_buffers : gmap string (list str)) (k : string)
    : result (list str) :=
  match section_buffers !! k with
  | Some b => Ok b
  | None => Raise (KeyError k)
  end.

(** [l[0]] *)
Definition first {A : Type} (l : list A) : result A :=
  match l with
  | x :: _ => Ok x
  | [] => Raise IndexError
  end.

Definition resume_data0 (raw_text : str) : dict :=
  [ ("basics"%string,
      JDict [("full_name"%string, JStr []); ("email"%string, JStr []);
             ("phone"%string, JStr []); ("linkedin"%string, JStr [])]);
    ("summary"%string, JStr []);
    ("experience"%string, JList []);
    ("education"%string, JList []);
    ("skills"%string,
      JDict [("technical"%string, JList []); ("tools"%string, JList []);
             ("soft"%string, JList [])]);
    ("raw_text"%string, JStr raw_text) ].

(** [[{"text_dump": "\n".join(b)}] if b else []] *)
Definition dump (b : list str) : json :=
  match b with
  | [] => JList []
  | _ => JList [JDict [("text_dump"%string, JStr (join [nl] b))]]
  end.

Definition naive_structure_parser (raw_text : str) : result dict :=
  let resume_data := resume_data0 raw_text in
  let lines := split_on nl raw_text in
  let section_buffers := snd (pass1 lines) in
  basics ← buffer section_buffers "basics";
  let basics_text := join [nl] basics in
  resume_data ←
    match re_search EMAIL_RE basics_text with
    | Some m => setitem2 resume_data "basics" "email" (JStr (group0 basics_text m))
    | None => Ok resume_data
    end;
  resume_data ←
    match re_search PHONE_RE basics_text with
    | Some m => setitem2 resume_data "basics" "phone" (JStr (group0 basics_text m))
    | None => Ok resume_data
    end;
  basics ← buffer section_buffers "basics";
  resume_data ←
    match basics with
    | [] => Ok resume_data
    | _ =>
        basics ← buffer section_buffers "basics";
        name ← first basics;
        setitem2 resume_data "basics" "full_name" (JStr name)
    end;
  summary ← buffer section_buffers "summary";
  let resume_data := dict_set "summary" (JStr (join [nl] summary)) resume_data in
  experience ← buffer section_buffers "experience";
  let resume_data := dict_set "experience" (dump experience) resume_data in
  education ← buffer section_buffers "education";
  let resume_data := dict_set "education" (dump education) resume_data in
  skills ← buffer section_buffers "skills";
  setitem2 resume_data "skills" "technical" (JList (map JStr skills)).
End Parser.

(** ** Orchestrator *)

(** What is kept of a file: the text written to it, or the dict handed
    to [json.dump] (the serialisation itself is not modelled). *)
Inductive file : Type :=
| TextFile (s : str)
| JsonFile (d : dict).

(** What the process does outside itself besides printing, kept in
    order to tell which extractor ran and which files were written. *)
Inductive event : Type :=
| Makedirs (path : str)
| PlumberCall (path : str)
| OcrCall (path : str)
| FileWrite (path : str).

Record world : Type := {
  fs : gmap str file;
  stdout : str;
  stderr : str;
  log : list event
}.

(** What a call into an external library comes to: a value, or an
    exception (of a subclass of [Exception]) whose [str] is [msg]. *)
Inductive outcome (A : Type) : Type :=
| Returned (a : A)
| Failed (msg : str).
Arguments Returned {A} a.
Arguments Failed {A} msg.

Definition engine {A : Type} (o : outcome A) : result A :=
  match o with
  | Returned a => Ok a
  | Failed msg => Raise (EngineError msg)
  end.

(** What is outside the script.

    The optional modules as imported at start-up: [None] when the
    import failed. [pdf_pages path] is what [page.extract_text] gives
    for each page of the opened PDF, [ocr_pages path] the recognised
    lines of each page ([None] for a page without result);
    [ocr_init_error] is the [str] of the exception of the [PaddleOCR]
    constructor, when paddleocr was imported and its constructor
    raised.

    The host: [makedirs_error path] is the [str] of the exception of
    [os.makedirs(path, exist_ok=True)], when it raises;
    [write_error path content] that of opening [path] for writing and
    writing [content], when either raises, with what the path holds
    afterwards when that is not what it held before (a file that was
    opened is truncated); [print_error s] that of [print(s)] on the
    standard output, when it raises. *)
Record env : Type := {
  pdfplumber : option (str -> outcome (list (option str)));
  ocr : option (str -> outcome (list (option (list str))));
  ocr_init_error : option str;
  makedirs_error : str -> option str;
  write_error : str -> file -> option (str * option file);
  print_error : str -> option str
}.

Definition M (A : Type) : Type := world -> world * result A.

#[global] Instance M_ret : MRet M := fun A a w => (w, Ok a).
#[global] Instance M_bind : MBind M := fun A B f m w =>
  match m w with
  | (w', Ok a) => f a w'
  | (w', Raise e) => (w', Raise e)
  end.

Definition raise {A : Type} (e : exn) : M A := fun w => (w, Raise e).
Definition lift {A : Type} (r : result A) : M A := fun w => (w, r).

Definition trace (ev : event) : M unit := fun w =>
  ({| fs := fs w; stdout := stdout w; stderr := stderr w;
      log := log w ++ [ev] |}, Ok tt).

(** [os.makedirs(path, exist_ok=True)] *)
Definition makedirs (E : env) (path : str) : M unit := fun w =>
  ({| fs := fs w; stdout := stdout w; stderr := stderr w;
      log := log w ++ [Makedirs path] |},
   match makedirs_error E path with
   | Some msg => Raise (HostError msg)
   | None => Ok tt
   end).

(** [print(s)]: nothing is printed when it raises. *)
Definition print (E : env) (s : str) : M unit := fun w =>
  match print_error E s with
  | Some msg => (w, Raise (HostError msg))
  | None =>
      ({| fs := fs w; stdout := stdout w ++ s ++ [nl]; stderr := stderr w;
          log := log w |}, Ok tt)
  end.

(** [print(s, file=sys.stderr)]; the error stream replaces what it
    cannot encode, and is taken to accept what it is given. *)
Definition eprint (s : str) : M unit := fun w =>
  ({| fs := fs w; stdout := stdout w; stderr := stderr w ++ s ++ [nl];
      log := log w |}, Ok tt).

(** [with open(path, 'w') as f: ...] writing [content]; [FileWrite]
    records the call, whether it raises or not. *)
Definition write_file (E : env) (path : str) (content : file) : M unit :=
  fun w =>
    match write_error E path content with
    | None =>
        ({| fs := <[path := content]> (fs w); stdout := stdout w;
            stderr := stderr w; log := log w ++ [FileWrite path] |}, Ok tt)
    | Some (msg, residue) =>
        ({| fs := match residue with
                  | Some f => <[path := f]> (fs w)
                  | None => fs w
                  end;
            stdout := stdout w; stderr := stderr w;
            log := log w ++ [FileWrite path] |}, Raise (HostError msg))
    end.

Definition is_Exception (e : exn) : bool :=
  match e with
  | SystemExit _ => false
  | _ => true
  end.

(** [try: body except Exception as e: handler e] *)
Definition try_except {A : Type} (body : M A) (handler : exn -> M A) : M A :=
  fun w =>
    match body w with
    | (w', Raise e) => if is_Exception e then handler e w' else (w', Raise e)
    | done => done
    end.

(** [str(e)] *)
Definition exn_str (e : exn) : str :=
  match e with
  | KeyError k => py "'" ++ py k ++ py "'"
  | RuntimeError msg | EngineError msg | HostError msg => msg
  | TypeError | IndexError => []
  | SystemExit c => []
  end.

(** [os.path.join(a, b)] of [posixpath]. *)
Definition startswith_sep (b : str) : bool :=
  match b with
  | c :: _ => c =? ch "/"
  | [] => false
  end.
Definition endswith_sep (a : str) : bool :=
  match last a with
  | Some z => z =? ch "/"
  | None => false
  end.
Definition path_join (a b : str) : str :=
  if startswith_sep b then b
  else if match a with [] => true | _ => endswith_sep a end then a ++ b
  else a ++ [ch "/"] ++ b.

(** The pages whose text is kept: [if text:]. *)
Definition kept_text (page : option str) : option str :=
  match page with
  | Some (c :: t) => Some (c :: t)
  | _ => None
  end.

Definition extract_text_pdfplumber (E : env) (pdf_path : str) : result str :=
  match pdfplumber E with
  | None => Ok []
  | Some pdf_pages =>
      pages ← engine (pdf_pages pdf_path);
      let text_content := omap kept_text pages in
      Ok (join [nl] text_content)
  end.

Definition extract_text_paddleocr (E : env) (pdf_path : str) : result str :=
  match ocr E with
  | None =>
      Raise (RuntimeError
        (py "PaddleOCR not initialized but required for this image PDF."))
  | Some ocr_pages =>
      results ← engine (ocr_pages pdf_path);
      let recognized_lines :=
        concat (map (fun page_res => default [] page_res) results) in
      Ok (join [nl] recognized_lines)
  end.

Definition FAILED_EXTRACTION : str := py "FAILED_EXTRACTION".

Section Orchestrator.
Context (U : Unicode) (E : env).

Definition task_dir (req_id : str) : str := py "/tmp/resume_tasks/" ++ req_id.
Definition ocr_path (req_id : str) : str :=
  path_join (task_dir req_id) (py "ocr.txt").
Definition out_path (req_id : str) : str :=
  path_join (task_dir req_id) (py "parsed_fallback.json").

(** Step 2 of [main]: the text to structure and [used_ocr]. *)
Definition choose_text (req_id pdf_path raw_text : str) : M (str * bool) :=
  if (length (strip U raw_text) <? 50)%nat then
    raw_text ← try_except
      (trace (OcrCall pdf_path);;
       raw_text ← lift (extract_text_paddleocr E pdf_path);
       write_file E (ocr_path req_id) (TextFile raw_text);;
       mret raw_text)
      (fun e =>
         eprint (py "OCR Failed: " ++ exn_str e);;
         mret FAILED_EXTRACTION);
    mret (raw_text, true)
  else mret (raw_text, false).

(** [main()] on the parsed arguments. *)
Definition main (req_id pdf_path : str) : M unit :=
  makedirs E (task_dir req_id);;
  trace (PlumberCall pdf_path);;
  raw_text ← lift (extract_text_pdfplumber E pdf_path);
  '(raw_text, used_ocr) ← choose_text req_id pdf_path raw_text;
  structured_json ← lift (naive_structure_parser U raw_text);
  let structured_json :=
    dict_set "_meta_method"
      (JStr (if used_ocr : bool then py "paddleocr" else py "pdfplumber"))
      structured_json in
  write_file E (out_path req_id) (JsonFile structured_json);;
  print E (out_path req_id);;
  raise (SystemExit 0).

(** The import-time code before [main]: only the [ImportError] of
    paddleocr is caught. *)
Definition startup : M unit :=
  match ocr_init_error E with
  | Some msg => raise (EngineError msg)
  | None =>
      match ocr E with
      | None =>
          eprint
            (py "Warning: paddleocr not installed. OCR will fail if needed.")
      | Some _ => mret tt
      end
  end.

Definition exit_code (r : result unit) : Z :=
  match r with
  | Ok _ => 0
  | Raise (SystemExit c) => c
  | Raise _ => 1
  end.

(** One run of the script on a file system, with both streams empty
    at the start: the world it leaves and its exit code (1 for an
    exception that nothing catches; the traceback that the interpreter
    then prints on the error stream is not part of [stderr]). *)
Definition run (files : gmap str file) (req_id pdf_path : str) : world * Z :=
  let w0 := {| fs := files; stdout := []; stderr := []; log := [] |} in
  let '(w, r) := (startup;; main req_id pdf_path) w0 in
  (w, exit_code r).
End Orchestrator.

(** ** What the patterns mean

    The reading of the patterns that the specification uses, against
    which the matcher above is checked. *)

Definition fits (hi : option nat) (n : nat) : Prop :=
  match hi with
  | Some h => (n <= h)%nat
  | None => True
  end.

(** [matches r pos m post]: at offset [pos] of the subject, [r] can
    consume [m] when [post] is what follows. *)
Inductive matches : regex -> nat -> str -> str -> Prop :=
| matches_nil pos post : matches [] pos [] post
| matches_rep cls lo hi r pos w m post :
    Forall (fun c => cls c = true) w ->
    (lo <= length w)%nat -> fits hi (length w) ->
    matches r (pos + length w) m post ->
    matches (Rep cls lo hi :: r) pos (w ++ m) post
| matches_bol r m post :
    matches r 0 m post -> matches (Bol :: r) 0 m post
| matches_eol r pos m post :
    at_end (m ++ post) = true ->
    matches r pos m post -> matches (Eol :: r) pos m post.

Definition spaces (U : Unicode) (w : str) : Prop :=
  Forall (fun c => u_isspace U c = true) w.

(** The whole line is the pattern, with at most one colon right after
    it, and nothing but whitespace around. *)
Definition whole_line (U : Unicode) (pattern s : str) : Prop :=
  exists lead colon trail,
    s = lead ++ pattern ++ colon ++ trail
    /\ spaces U lead /\ (colon = [] \/ colon = [ch ":"]) /\ spaces U trail.

(** [m] occurs in [text] at offset [i]. *)
Definition occurs_at (m text : str) (i : nat) : Prop :=
  exists pre post, text = pre ++ m ++ post /\ length pre = i.

(** [local@domain.tld] *)
Definition email_shaped (U : Unicode) (m : str) : Prop :=
  let local c := cls_w U c || is_ch "." c || is_ch "-" c in
  exists a b c,
    m = a ++ [ch "@"] ++ b ++ [ch "."] ++ c
    /\ a <> [] /\ b <> [] /\ c <> []
    /\ Forall (fun x => local x = true) a
    /\ Forall (fun x => local x = true) b
    /\ Forall (fun x => cls_w U x = true) c.


(** The field [k2] of the dict under [k1] of a record. *)
Definition field2 (d : dict) (k1 k2 : string) : option json :=
  match dict_get k1 d with
  | Some (JDict d1) => dict_get k2 d1
  | _ => None
  end.

(** ** Notions used in the statements and proofs *)

Local Open Scope nat_scope.

(** Two strings that differ at a position both have. *)
Fixpoint diverge (p q : str) : bool :=
  match p, q with
  | a :: p', b :: q' => negb (a =? b)%N || diverge p' q'
  | _, _ => false
  end.

Definition headed (p : str) : bool :=
  match p with
  | a :: _ => (a <? 128)%N && negb (ascii_isspace a)
  | [] => false
  end.

Definition all_patterns (P : string -> str -> bool) : bool :=
  forallb (fun sp => forallb (P (fst sp)) (snd sp)) SECTION_HEADERS.

(** Some pattern of [section] matches the whole of [s]. *)
Definition section_matches (U : Unicode) (section : string) (s : str) : Prop :=
  exists patterns p,
    In (section, patterns) SECTION_HEADERS /\ In p patterns
    /\ whole_line U p s.

Definition all_ascii (s : str) : bool := forallb (fun c => (c <? 128)%N) s.

(** Two patterns that are the same up to their classes outside ASCII. *)
Definition item_agree (i j : item) : Prop :=
  match i, j with
  | Rep c lo hi, Rep c' lo' hi' =>
      lo = lo' /\ hi = hi' /\ forall x, is_ascii x -> c x = c' x
  | Bol, Bol | Eol, Eol => True
  | _, _ => False
  end.

(** What holds of [current_section] and [section_buffers] throughout
    the pass: the current section and the six initial keys have a
    buffer, and every buffered line is a stripped, non-empty line. *)
Definition pass_inv (U : Unicode) (st : string * gmap string (list str)) : Prop :=
  is_Some (snd st !! fst st)
  /\ (forall k, is_Some (section_buffers0 !! k) -> is_Some (snd st !! k))
  /\ (forall k b, snd st !! k = Some b ->
        Forall (fun x => x <> [] /\ strip U x = x) b).

(** [m.group(0) if m else ""] for [m = re.search(r, text)]. *)
Definition first_match (r : regex) (text : str) : str :=
  match re_search r text with
  | Some m => group0 text m
  | None => []
  end.

(** The record in terms of the buffers of the line pass. *)
Definition assembled (U : Unicode) (bufs : gmap string (list str))
    (raw_text : str) : dict :=
  let b k := default [] (bufs !! k : option (list str)) in
  [ ("basics"%string,
      JDict [("full_name"%string, JStr (hd [] (b "basics"%string)));
             ("email"%string,
               JStr (first_match (EMAIL_RE U) (join [nl] (b "basics"%string))));
             ("phone"%string,
               JStr (first_match (PHONE_RE U) (join [nl] (b "basics"%string))));
             ("linkedin"%string, JStr [])]);
    ("summary"%string, JStr (join [nl] (b "summary"%string)));
    ("experience"%string, dump (b "experience"%string));
    ("education"%string, dump (b "education"%string));
    ("skills"%string,
      JDict [("technical"%string, JList (map JStr (b "skills"%string)));
             ("tools"%string, JList []); ("soft"%string, JList [])]);
    ("raw_text"%string, JStr raw_text) ].

(** [m] is the text of the leftmost place of [text] where something of
    the shape [P] starts, or is empty when [text] has nothing of that
    shape. *)
Definition first_shaped (P : str -> Prop) (text m : str) : Prop :=
  (m = [] /\ forall i m', occurs_at m' text i -> ~ P m')
  \/ (exists i, occurs_at m text i /\ P m
        /\ forall j m', j < i -> occurs_at m' text j -> ~ P m').

(** A line of content as the pass meets it: not empty, without
    whitespace around it, not a header, and without a newline. *)
Definition body_line (U : Unicode) (l : str) : Prop :=
  l <> [] /\ strip U l = l /\ is_header U l = None /\ nl ∉ l.

Definition jane_block : str :=
  join [nl] [py "Jane Doe"; py "jane.doe@example.com"; py "(555) 123-4567"].

(** What start-up leaves on the error stream. *)
Definition warning (E : env) : str :=
  match ocr E with
  | None =>
      py "Warning: paddleocr not installed. OCR will fail if needed." ++ [nl]
  | Some _ => []
  end.

Definition stamped (method : str) (record : dict) : dict :=
  dict_set "_meta_method" (JStr method) record.

Definition sep_after (a : str) : str :=
  if match a with [] => true | _ => endswith_sep a end then [] else [ch "/"].

(** The host lets the run through: the [PaddleOCR] constructor did not
    raise, the request directory is made, the JSON file is written and
    its path is printed. *)
Definition unhindered (E : env) (req_id : str) : Prop :=
  ocr_init_error E = None
  /\ makedirs_error E (task_dir req_id) = None
  /\ (forall record, write_error E (out_path req_id) (JsonFile record) = None)
  /\ print_error E (out_path req_id) = None.

(** Steps 4 and 5 of [main] from the world [w] with the record to
    write: the world they leave and the exit code. *)
Definition finish (E : env) (req_id : str) (record : dict) (w : world)
    : world * Z :=
  let written (held : gmap str file) :=
    {| fs := held; stdout := stdout w; stderr := stderr w;
       log := log w ++ [FileWrite (out_path req_id)] |} in
  match write_error E (out_path req_id) (JsonFile record) with
  | Some (_, Some f) => (written (<[out_path req_id := f]> (fs w)), 1%Z)
  | Some (_, None) => (written (fs w), 1%Z)
  | None =>
      let w' := written (<[out_path req_id := JsonFile record]> (fs w)) in
      match print_error E (out_path req_id) with
      | Some _ => (w', 1%Z)
      | None =>
          ({| fs := fs w'; stdout := stdout w' ++ out_path req_id ++ [nl];
              stderr := stderr w'; log := log w' |}, 0%Z)
      end
  end.

(** The message of the [UnicodeEncodeError] of the UTF-8 encoder on a
    text with a surrogate, if it has one: the error is at the first run
    of surrogates. *)
Definition is_surrogate (c : char) : bool := (55296 <=? c)%N && (c <=? 57343)%N.

Fixpoint surrogate_run (s : str) : nat :=
  match s with
  | c :: s' => if is_surrogate c then S (surrogate_run s') else 0
  | [] => 0
  end.

Fixpoint first_surrogate (pos : nat) (s : str) : option (nat * nat * char) :=
  match s with
  | [] => None
  | c :: s' =>
      if is_surrogate c then Some (pos, pos + surrogate_run s', c)
      else first_surrogate (S pos) s'
  end.

Definition decimal (n : nat) : str :=
  py (DecimalString.NilEmpty.string_of_uint (Nat.to_uint n)).
Definition hexadecimal (c : char) : str :=
  py (HexadecimalString.NilEmpty.string_of_uint (N.to_hex_uint c)).

Definition utf8_error (s : str) : option str :=
  match first_surrogate 0 s with
  | None => None
  | Some (start, last, c) =>
      Some (if start =? last then
              py "'utf-8' codec can't encode character '\u" ++ hexadecimal c
              ++ py "' in position " ++ decimal start
              ++ py ": surrogates not allowed"
            else
              py "'utf-8' codec can't encode characters in position "
              ++ decimal start ++ py "-" ++ decimal last
              ++ py ": surrogates not allowed")
  end.

(** A host that refuses nothing but what UTF-8 cannot encode: a text
    with a surrogate is neither written to a file, which is left empty,
    nor printed. *)
Definition utf8_env (pdf : option (str -> outcome (list (option str))))
    (engine : option (str -> outcome (list (option (list str))))) : env := {|
  pdfplumber := pdf;
  ocr := engine;
  ocr_init_error := None;
  makedirs_error := fun _ => None;
  write_error := fun _ content =>
    match content with
    | TextFile s => (fun msg => (msg, Some (TextFile []))) <$> utf8_error s
    | JsonFile _ => None
    end;
  print_error := utf8_error
|}.

(** A scanned PDF on a machine without the OCR module. *)
Definition scan_env : env :=
  utf8_env (Some (fun _ => Returned [None; Some []; Some (py "p. 1")])) None.

(** A scanned PDF in whose text the OCR engine puts a lone surrogate. *)
Definition surrogate_text : str := py "Jane " ++ [55296%N] ++ py " Doe".
Definition surrogate_env : env :=
  utf8_env (Some (fun _ => Returned [Some (py "p. 1")]))
           (Some (fun _ => Returned [Some [surrogate_text]])).

(** A scanned PDF whose one line the OCR engine reads. *)
Definition jane_scan_env : env :=
  utf8_env (Some (fun _ => Returned [None; Some []; None]))
           (Some (fun _ => Returned [Some [py "Jane Doe"]])).



(** The content lines of a text in order, each with the section it
    falls under: what the loop of pass 1 buffers, without the buffers. *)
Fixpoint tagged (U : Unicode) (current_section : string) (lines : list str)
    : list (string * str) :=
  match lines with
  | [] => []
  | line :: rest =>
      match strip U line with
      | [] => tagged U current_section rest
      | c :: t =>
          match is_header U (c :: t) with
          | Some section => tagged U section rest
          | None => (current_section, c :: t) :: tagged U current_section rest
          end
      end
  end.

(** The content lines that fall under section [k]. *)
Definition content_of (U : Unicode) (k : string) (lines : list str) : list str :=
  map snd (filter (fun p => fst p = k) (tagged U "basics" lines)).

(** A header line of [section] as the pass meets it. *)
Definition header_line (U : Unicode) (section : string) (l : str) : Prop :=
  l <> [] /\ strip U l = l /\ is_header U l = Some section /\ nl ∉ l.

(** Two records that agree on every key but [raw_text]. *)
Definition same_derived (r r' : dict) : Prop :=
  forall key, key <> "raw_text"%string -> dict_get key r = dict_get key r'.

(** A request identifier that is not empty and does not end in "/". *)
Definition plain_id (req_id : str) : Prop :=
  exists z, last req_id = Some z /\ z <> ch "/".

(** A page from which [page.extract_text] gets nothing. *)
Definition textless (page : option str) : Prop :=
  page = None \/ page = Some [].

(** The lines PaddleOCR recognised, page after page. *)
Definition recognized (results : list (option (list str))) : list str :=
  concat (map (fun page_res => default [] page_res) results).

(** * Properties *)

(** ** The model on sample inputs *)

Example header_with_colon :
  is_header ascii_tables (py "Technical Skills:") = Some "skills"%string.
Proof. reflexivity. Qed.

Example header_colon_apart :
  is_header ascii_tables (py "Skills :") = None.
Proof. reflexivity. Qed.

Example header_in_sentence :
  is_header ascii_tables (py "Education and training") = None.
Proof. reflexivity. Qed.

Example email_gives_back :
  first_match (EMAIL_RE ascii_tables) (py "mail jane.doe@example.com. today")
  = py "jane.doe@example.com".
Proof. reflexivity. Qed.

Example phone_dotted :
  first_match (PHONE_RE ascii_tables) (py "tel 555.123.45678")
  = py "555.123.4567".
Proof. reflexivity. Qed.

Example no_phone :
  first_match (PHONE_RE ascii_tables) (py "room 555, floor 12") = [].
Proof. reflexivity. Qed.

Example split_keeps_empty_lines :
  split_on nl (py "a" ++ [nl; nl] ++ py "b" ++ [nl]) = [py "a"; []; py "b"; []].
Proof. reflexivity. Qed.

Example join_paths :
  out_path (py "r1") = py "/tmp/resume_tasks/r1/parsed_fallback.json"
  /\ out_path (py "r1/") = py "/tmp/resume_tasks/r1/parsed_fallback.json"
  /\ out_path [] = py "/tmp/resume_tasks/parsed_fallback.json".
Proof. by split_and!. Qed.

(** ** The matcher against the reading of the patterns *)

Lemma fits_0 hi : fits hi 0.
Proof. destruct hi; simpl; lia. Qed.

Lemma rep_sound cls k s : forall lo hi pos e,
  rep cls k lo hi pos s = Some e ->
  exists w s', s = w ++ s' /\ Forall (fun c => cls c = true) w
    /\ lo <= length w /\ fits hi (length w) /\ k (pos + length w) s' = Some e.
Proof.
  assert (Hstop : forall lo hi pos e s,
    match lo with 0 => k pos s | S _ => None end = Some e ->
    exists w s', s = w ++ s' /\ Forall (fun c => cls c = true) w
      /\ lo <= length w /\ fits hi (length w) /\ k (pos + length w) s' = Some e).
  { intros lo hi pos e s0 Hs. destruct lo; [|discriminate].
    exists [], s0. rewrite Nat.add_0_r.
    split_and!; auto using fits_0. }
  induction s as [|c s IH]; intros lo hi pos e H; simpl in H; [by eauto|].
  destruct (cls c && room hi) eqn:Hc; [|by eauto].
  destruct (rep cls k (Nat.pred lo) (less hi) (S pos) s) as [e'|] eqn:Hr;
    [|by eauto].
  injection H as <-.
  apply andb_true_iff in Hc as [Hc Hroom].
  destruct (IH _ _ _ _ Hr) as (w & s' & -> & Hw & Hlo & Hhi & Hk).
  exists (c :: w), s'. simpl. split_and!; auto.
  - lia.
  - destruct hi as [[|h]|]; simpl in *; try discriminate; lia.
  - rewrite <- Hk. f_equal. lia.
Qed.

Lemma rep_complete cls k w : forall lo hi pos s' e,
  Forall (fun c => cls c = true) w -> lo <= length w -> fits hi (length w) ->
  k (pos + length w) s' = Some e ->
  exists e', rep cls k lo hi pos (w ++ s') = Some e'.
Proof.
  induction w as [|c w IH]; intros lo hi pos s' e Hw Hlo Hhi Hk.
  - simpl in *. assert (lo = 0) as -> by lia. rewrite Nat.add_0_r in Hk.
    destruct s' as [|c s']; simpl; [eauto|].
    destruct (cls c && room hi); [|eauto].
    destruct (rep cls k 0 (less hi) (S pos) s'); eauto.
  - inversion Hw as [|? ? Hc Hw']; subst. simpl.
    assert (Hroom : room hi = true).
    { destruct hi as [[|h]|]; simpl in *; auto; lia. }
    rewrite Hc, Hroom. simpl.
    destruct (IH (Nat.pred lo) (less hi) (S pos) s' e) as [e' He']; auto.
    + simpl in Hlo. lia.
    + destruct hi as [h|]; simpl in *; auto; lia.
    + rewrite <- Hk. f_equal. simpl. lia.
    + rewrite He'. eauto.
Qed.

Lemma match_items_sound r : forall pos s e,
  match_items r pos s = Some e ->
  exists m post, s = m ++ post /\ e = pos + length m /\ matches r pos m post.
Proof.
  induction r as [|[cls lo hi| |] r IH]; intros pos s e H; simpl in H.
  - injection H as <-. exists [], s. repeat split; auto. constructor.
  - apply rep_sound in H as (w & s' & -> & Hw & Hlo & Hhi & Hk).
    apply IH in Hk as (m & post & -> & -> & Hm).
    exists (w ++ m), post. rewrite <- app_assoc, length_app.
    repeat split; auto; [lia|]. by constructor.
  - destruct (Nat.eqb_spec pos 0) as [->|]; [|discriminate].
    apply IH in H as (m & post & -> & -> & Hm).
    exists m, post. repeat split; auto. by constructor.
  - destruct (at_end s) eqn:He; [|discriminate].
    apply IH in H as (m & post & -> & -> & Hm).
    exists m, post. repeat split; auto. by constructor.
Qed.

Lemma match_items_complete r pos m post :
  matches r pos m post -> exists e, match_items r pos (m ++ post) = Some e.
Proof.
  induction 1 as [pos post|cls lo hi r pos w m post Hw Hlo Hhi _ [e IH]
                  |r m post _ [e IH]|r pos m post He _ [e IH]]; simpl.
  - eauto.
  - rewrite <- app_assoc. eapply rep_complete; eauto.
  - eauto.
  - rewrite He. eauto.
Qed.

Lemma re_match_iff r s :
  re_match r s = true <-> exists m post, s = m ++ post /\ matches r 0 m post.
Proof.
  unfold re_match. split.
  - destruct (match_items r 0 s) as [e|] eqn:H; [|discriminate]. intros _.
    apply match_items_sound in H as (m & post & ? & _ & ?). eauto.
  - intros (m & post & -> & H).
    apply match_items_complete in H as [e ->]. done.
Qed.

Lemma matches_rep_inv cls lo hi r pos m post :
  matches (Rep cls lo hi :: r) pos m post ->
  exists w m', m = w ++ m' /\ Forall (fun c => cls c = true) w
    /\ lo <= length w /\ fits hi (length w)
    /\ matches r (pos + length w) m' post.
Proof. inversion 1; subst. eauto 10. Qed.

Lemma matches_nil_inv pos m post : matches [] pos m post -> m = [].
Proof. by inversion 1. Qed.

Lemma matches_lit_inv p r : forall pos m post,
  matches (lit p ++ r) pos m post ->
  exists m', m = p ++ m' /\ matches r (pos + length p) m' post.
Proof.
  induction p as [|a p IH]; intros pos m post H; simpl in *.
  - exists m. by rewrite Nat.add_0_r.
  - apply matches_rep_inv in H as (w & m' & -> & Hw & Hlo & Hhi & H).
    destruct w as [|c [|? ?]]; simpl in *; try lia.
    inversion Hw as [|? ? Hc _]; subst. apply N.eqb_eq in Hc as <-.
    apply IH in H as (m'' & -> & H).
    exists m''. split; [done|]. by replace (pos + S (length p)) with (pos + 1 + length p) by lia.
Qed.

Lemma matches_lit p r : forall pos m post,
  matches r (pos + length p) m post -> matches (lit p ++ r) pos (p ++ m) post.
Proof.
  induction p as [|a p IH]; intros pos m post H; simpl in *.
  - by rewrite Nat.add_0_r in H.
  - apply (matches_rep (N.eqb a) 1 (Some 1) _ pos [a]); simpl; auto.
    + constructor; [apply N.eqb_refl|constructor].
    + apply IH. by replace (pos + 1 + length p) with (pos + S (length p)) by lia.
Qed.

Lemma at_most_one_inv (cls : char -> bool) w :
  Forall (fun c => cls c = true) w -> fits (Some 1) (length w) ->
  w = [] \/ exists x, w = [x] /\ cls x = true.
Proof.
  destruct w as [|x [|? ?]]; simpl; intros Hw Hl; auto; [|lia].
  inversion Hw; subst. eauto.
Qed.

Section HeaderPatterns.
Context (U : Unicode).
Hypothesis space_nl : u_isspace U nl = true.

Lemma at_end_spaces post : at_end post = true -> spaces U post.
Proof.
  destruct post as [|c [|? ?]]; simpl; try discriminate; intros H.
  - constructor.
  - apply N.eqb_eq in H as ->. by repeat constructor.
Qed.

(** The tail of both header patterns: [\s*$]. *)
Lemma matches_tail pos m post :
  matches [star (cls_s U); Eol] pos m post -> spaces U (m ++ post).
Proof.
  intros H. apply matches_rep_inv in H as (w & m' & -> & Hw & _ & _ & H).
  inversion H as [| | |? ? ? ? He H']; subst.
  apply matches_nil_inv in H' as ->. simpl in He.
  rewrite <- app_assoc. apply Forall_app. split; [done|]. by apply at_end_spaces.
Qed.

Lemma tail_matches pos trail :
  spaces U trail -> matches [star (cls_s U); Eol] pos (trail ++ []) [].
Proof.
  intros H. apply matches_rep; simpl; auto; [lia|].
  apply matches_eol; [done|constructor].
Qed.

Lemma header_re_whole pattern s :
  re_match (header_re U pattern) s = true <->
  exists lead trail,
    s = lead ++ pattern ++ trail /\ spaces U lead /\ spaces U trail.
Proof.
  rewrite re_match_iff. unfold header_re. split.
  - intros (m & post & -> & H). simpl in H.
    inversion H as [| |? ? ? H'|]; subst.
    apply matches_rep_inv in H' as (lead & m' & -> & Hlead & _ & _ & H').
    apply matches_lit_inv in H' as (m'' & -> & H').
    apply matches_tail in H'.
    exists lead, (m'' ++ post). by rewrite <- !app_assoc.
  - intros (lead & trail & -> & Hlead & Htrail).
    exists (lead ++ pattern ++ trail ++ []), []. split.
    { by rewrite !app_nil_r. }
    simpl. apply matches_bol. apply matches_rep; simpl; auto; [lia|].
    apply matches_lit. by apply tail_matches.
Qed.

Lemma header_colon_re_whole pattern s :
  re_match (header_colon_re U pattern) s = true <-> whole_line U pattern s.
Proof.
  rewrite re_match_iff. unfold header_colon_re, whole_line. split.
  - intros (m & post & -> & H). simpl in H.
    inversion H as [| |? ? ? H'|]; subst.
    apply matches_rep_inv in H' as (lead & m' & -> & Hlead & _ & _ & H').
    apply matches_lit_inv in H' as (m'' & -> & H').
    apply matches_rep_inv in H' as (colon & m3 & -> & Hcolon & _ & Hone & H').
    apply matches_tail in H'.
    exists lead, colon, (m3 ++ post). rewrite <- !app_assoc.
    split_and!; auto.
    destruct (at_most_one_inv _ _ Hcolon Hone) as [->|(x & -> & Hx)]; auto.
    apply N.eqb_eq in Hx as <-. auto.
  - intros (lead & colon & trail & -> & Hlead & Hcolon & Htrail).
    exists (lead ++ pattern ++ colon ++ trail ++ []), []. split.
    { by rewrite !app_nil_r. }
    simpl. apply matches_bol. apply matches_rep; simpl; auto; [lia|].
    apply matches_lit. apply matches_rep; simpl.
    + destruct Hcolon as [->| ->]; repeat constructor.
    + lia.
    + destruct Hcolon as [->| ->]; simpl; lia.
    + by apply tail_matches.
Qed.

(** The first [re.match] of [is_header] never decides: what it
    accepts, the second accepts too. *)
Lemma header_re_subsumed pattern s :
  re_match (header_re U pattern) s = true ->
  re_match (header_colon_re U pattern) s = true.
Proof.
  rewrite header_re_whole, header_colon_re_whole.
  intros (lead & trail & -> & ? & ?). exists lead, [], trail. auto.
Qed.

Lemma pattern_hit_iff line line_lower pattern :
  pattern_hit U line line_lower pattern = true <->
  whole_line U pattern line_lower /\ length (split_ws U line) <= 4.
Proof.
  unfold pattern_hit.
  rewrite andb_true_iff, orb_true_iff, Nat.leb_le, <- header_colon_re_whole.
  intuition auto using header_re_subsumed.
Qed.
End HeaderPatterns.

(** ** The header table *)

Lemma diverge_app p : forall q x y, diverge p q = true -> p ++ x <> q ++ y.
Proof.
  induction p as [|a p IH]; intros [|b q] x y H; simpl in H; try discriminate.
  simpl. intros [= -> Heq]. rewrite N.eqb_refl in H. simpl in H.
  by apply IH in Heq.
Qed.

Lemma all_patterns_spec P :
  all_patterns P = true ->
  forall section patterns p,
    In (section, patterns) SECTION_HEADERS -> In p patterns -> P section p = true.
Proof.
  unfold all_patterns. rewrite forallb_forall. intros H section patterns p Hs Hp.
  specialize (H _ Hs). simpl in H. rewrite forallb_forall in H. auto.
Qed.

Lemma patterns_headed section patterns p :
  In (section, patterns) SECTION_HEADERS -> In p patterns -> headed p = true.
Proof. by apply (all_patterns_spec (fun _ => headed)). Qed.

(** Patterns of two different sections part ways before either ends. *)
Lemma patterns_apart s1 ps1 p1 s2 ps2 p2 :
  In (s1, ps1) SECTION_HEADERS -> In p1 ps1 ->
  In (s2, ps2) SECTION_HEADERS -> In p2 ps2 ->
  s1 <> s2 -> diverge p1 p2 = true.
Proof.
  intros H1 Hp1 H2 Hp2 Hne.
  pose proof (all_patterns_spec
    (fun s p => all_patterns (fun s' p' => String.eqb s s' || diverge p p'))
    eq_refl _ _ _ H1 Hp1) as H.
  pose proof (all_patterns_spec _ H _ _ _ H2 Hp2) as H'. simpl in H'.
  apply orb_true_iff in H' as [H'|]; [|done].
  by apply String.eqb_eq in H'.
Qed.

Lemma sections_named section patterns :
  In (section, patterns) SECTION_HEADERS -> String.eqb section "" = false.
Proof.
  intros H.
  assert (Hall : forallb (fun sp => negb (String.eqb (fst sp) ""))
                   SECTION_HEADERS = true) by reflexivity.
  rewrite forallb_forall in Hall. apply Hall in H. simpl in H.
  by destruct (String.eqb section "").
Qed.

Section Classifier.
Context (U : Unicode).

Lemma scan_patterns_Some section patterns line line_lower s :
  scan_patterns U section patterns line line_lower = Some s <->
  s = section /\
  exists p, In p patterns /\ pattern_hit U line line_lower p = true.
Proof.
  induction patterns as [|p ps IH]; simpl.
  - split; [discriminate|]. by intros (_ & ? & [] & _).
  - destruct (pattern_hit U line line_lower p) eqn:Hp.
    + split; [intros [= <-]; eauto|]. by intros [-> _].
    + rewrite IH. split; intros [-> (q & Hq & Hhit)]; split; eauto.
      destruct Hq as [->|]; [congruence|eauto].
Qed.

Lemma scan_sections_sound headers line line_lower s :
  scan_sections U headers line line_lower = Some s ->
  exists patterns p,
    In (s, patterns) headers /\ In p patterns
    /\ pattern_hit U line line_lower p = true.
Proof.
  induction headers as [|[section patterns] hs IH]; simpl; [discriminate|].
  destruct (scan_patterns U section patterns line line_lower) as [s'|] eqn:Hs.
  - intros [= ->]. apply scan_patterns_Some in Hs as [-> (p & ? & ?)]. eauto 6.
  - intros H. apply IH in H as (ps & p & ? & ? & ?). eauto 6.
Qed.

Lemma scan_sections_complete headers line line_lower section patterns p :
  In (section, patterns) headers -> In p patterns ->
  pattern_hit U line line_lower p = true ->
  exists s, scan_sections U headers line line_lower = Some s.
Proof.
  induction headers as [|[section' patterns'] hs IH]; simpl; [done|].
  intros [[= -> ->]|Hin] Hp Hhit.
  - assert (scan_patterns U section patterns line line_lower = Some section)
      as -> by (apply scan_patterns_Some; eauto).
    eauto.
  - destruct (scan_patterns U section' patterns' line line_lower); eauto.
Qed.

Hypothesis U_ascii : ascii_compatible U.

Lemma space_nl : u_isspace U nl = true.
Proof. by rewrite (ac_isspace U U_ascii) by (unfold is_ascii, nl; lia). Qed.

Lemma headed_not_space p :
  headed p = true -> exists a p', p = a :: p' /\ u_isspace U a = false.
Proof.
  destruct p as [|a p']; simpl; [discriminate|]. intros H.
  apply andb_true_iff in H as [Ha Hs]. apply N.ltb_lt in Ha.
  exists a, p'. split; [done|]. rewrite (ac_isspace U U_ascii) by done.
  by destruct (ascii_isspace a).
Qed.

Lemma lead_unique lead : forall lead' a x b y,
  spaces U lead -> spaces U lead' ->
  u_isspace U a = false -> u_isspace U b = false ->
  lead ++ a :: x = lead' ++ b :: y -> a :: x = b :: y.
Proof.
  induction lead as [|c lead IH]; intros [|c' lead'] a x b y Hl Hl' Ha Hb Heq;
    simpl in Heq.
  - done.
  - injection Heq as -> _. inversion Hl'; subst. congruence.
  - injection Heq as -> _. inversion Hl; subst. congruence.
  - injection Heq as -> Heq. inversion Hl; inversion Hl'; subst. eauto.
Qed.

Lemma whole_line_apart p q s :
  headed p = true -> headed q = true -> diverge p q = true ->
  whole_line U p s -> whole_line U q s -> False.
Proof.
  intros Hp Hq Hd (l1 & c1 & t1 & -> & Hl1 & _ & _) (l2 & c2 & t2 & Heq & Hl2 & _ & _).
  apply headed_not_space in Hp as (a & p' & Ep & Ha).
  apply headed_not_space in Hq as (b & q' & Eq & Hb).
  rewrite Ep, Eq in Heq. simpl in Heq.
  apply lead_unique in Heq; auto.
  rewrite Ep, Eq in Hd. revert Heq.
  apply (diverge_app (a :: p') (b :: q')). done.
Qed.

Lemma section_matches_unique s1 s2 s :
  section_matches U s1 s -> section_matches U s2 s -> s1 = s2.
Proof.
  intros (ps1 & p1 & H1 & Hp1 & Hw1) (ps2 & p2 & H2 & Hp2 & Hw2).
  destruct (String.eqb_spec s1 s2) as [|Hne]; [done|]. exfalso.
  eapply (whole_line_apart p1 p2); eauto using patterns_headed, patterns_apart.
Qed.

Lemma is_header_Some line section :
  is_header U line = Some section <->
  section_matches U section (u_lower U (strip U line))
  /\ length (split_ws U line) <= 4.
Proof.
  unfold is_header. split.
  - intros H. apply scan_sections_sound in H as (ps & p & Hs & Hp & Hhit).
    apply pattern_hit_iff in Hhit as [Hw Hlen]; [|apply space_nl].
    split; [|done]. by exists ps, p.
  - intros [(ps & p & Hs & Hp & Hw) Hlen].
    destruct (scan_sections_complete SECTION_HEADERS line
                (u_lower U (strip U line)) section ps p) as [s' Hs']; auto.
    { apply pattern_hit_iff; [apply space_nl|done]. }
    rewrite Hs'. f_equal.
    apply scan_sections_sound in Hs' as (ps' & p' & ? & ? & Hhit).
    apply pattern_hit_iff in Hhit as [Hw' _]; [|apply space_nl].
    apply (section_matches_unique _ _ (u_lower U (strip U line)));
      [by exists ps', p'|by exists ps, p].
Qed.

Lemma is_header_None line :
  is_header U line = None <->
  (forall section, ~ section_matches U section (u_lower U (strip U line)))
  \/ 4 < length (split_ws U line).
Proof.
  split.
  - intros H. destruct (le_lt_dec (length (split_ws U line)) 4) as [Hle|]; [|auto].
    left. intros section Hm.
    assert (is_header U line = Some section) by (by apply is_header_Some).
    congruence.
  - intros H. destruct (is_header U line) as [s|] eqn:Hs; [|done].
    apply is_header_Some in Hs as [Hm Hlen].
    destruct H as [H|H]; [by apply H in Hm|lia].
Qed.
End Classifier.

(** ** ASCII text

    On ASCII text the script depends on the character database through
    its ASCII rows only, so there it can be evaluated. *)

Lemma all_ascii_spec s : all_ascii s = true -> Forall is_ascii s.
Proof.
  unfold all_ascii. rewrite forallb_forall, Forall_forall.
  intros H c Hc. apply list_elem_of_In, H in Hc. by apply N.ltb_lt.
Qed.

Lemma rep_agree cls cls' k k' :
  (forall x, is_ascii x -> cls x = cls' x) ->
  forall s, Forall is_ascii s ->
  (forall pos t, Forall is_ascii t -> k pos t = k' pos t) ->
  forall lo hi pos, rep cls k lo hi pos s = rep cls' k' lo hi pos s.
Proof.
  intros Hcls s Hs Hk. induction Hs as [|c s Hc Hs IH]; intros lo hi pos; simpl.
  - destruct lo; auto.
  - rewrite (Hcls c Hc), IH, Hk by (by constructor). done.
Qed.

Lemma match_items_agree r r' :
  Forall2 item_agree r r' ->
  forall pos s, Forall is_ascii s -> match_items r pos s = match_items r' pos s.
Proof.
  induction 1 as [|i j r r' Hij _ IH]; intros pos s Hs; simpl; [done|].
  destruct i as [c lo hi| |], j as [c' lo' hi'| |]; simpl in Hij; try done.
  - destruct Hij as (-> & -> & Hc). by apply rep_agree.
  - by rewrite IH.
  - by rewrite IH.
Qed.


Lemma item_agree_refl i : item_agree i i.
Proof. by destruct i. Qed.

Lemma lit_agree p : Forall2 item_agree (lit p) (lit p).
Proof. induction p; constructor; auto using item_agree_refl. Qed.

Lemma ascii_lower_is_ascii s :
  Forall is_ascii s -> Forall is_ascii (map ascii_lower_char s).
Proof.
  intros H. apply Forall_map. eapply Forall_impl; [exact H|].
  intros c Hc. unfold is_ascii, ascii_lower_char in *. simpl.
  destruct ((65 <=? c)%N && (c <=? 90)%N) eqn:E; [|done].
  apply andb_true_iff in E as [_ E]. apply N.leb_le in E. lia.
Qed.

Section Ascii.
Context (U : Unicode).
Hypothesis U_ascii : ascii_compatible U.

Lemma lstrip_is_ascii (V : Unicode) s :
  Forall is_ascii s -> Forall is_ascii (lstrip V s).
Proof.
  induction 1 as [|c s Hc Hs IH]; simpl; [constructor|].
  destruct (u_isspace V c); [done|by constructor].
Qed.

Lemma lstrip_ascii s :
  Forall is_ascii s -> lstrip U s = lstrip ascii_tables s.
Proof.
  induction 1 as [|c s Hc Hs IH]; simpl; [done|].
  by rewrite (ac_isspace U U_ascii), IH.
Qed.

Lemma strip_ascii s :
  Forall is_ascii s -> strip U s = strip ascii_tables s.
Proof.
  intros H. unfold strip, rstrip.
  rewrite (lstrip_ascii s H), lstrip_ascii; [done|].
  by apply Forall_rev, lstrip_is_ascii.
Qed.

Lemma strip_is_ascii (V : Unicode) s :
  Forall is_ascii s -> Forall is_ascii (strip V s).
Proof.
  intros H. unfold strip, rstrip.
  by apply Forall_rev, lstrip_is_ascii, Forall_rev, lstrip_is_ascii.
Qed.

Lemma split_ws_ascii s :
  Forall is_ascii s -> split_ws U s = split_ws ascii_tables s.
Proof.
  induction 1 as [|c s Hc Hs IH]; simpl; [done|].
  rewrite (ac_isspace U U_ascii), IH by done.
  destruct Hs as [|c' s' Hc' _]; [done|].
  by rewrite (ac_isspace U U_ascii c').
Qed.


Lemma header_re_agree p :
  Forall2 item_agree (header_re U p) (header_re ascii_tables p).
Proof.
  unfold header_re. repeat first
    [ apply Forall2_app | apply lit_agree | constructor ]; simpl;
    auto; exact (ac_isspace U U_ascii).
Qed.

Lemma header_colon_re_agree p :
  Forall2 item_agree (header_colon_re U p) (header_colon_re ascii_tables p).
Proof.
  unfold header_colon_re. repeat first
    [ apply Forall2_app | apply lit_agree | constructor ]; simpl;
    auto; exact (ac_isspace U U_ascii).
Qed.




Lemma pattern_hit_ascii line line_lower p :
  Forall is_ascii line -> Forall is_ascii line_lower ->
  pattern_hit U line line_lower p = pattern_hit ascii_tables line line_lower p.
Proof.
  intros Hl Hll. unfold pattern_hit, re_match.
  rewrite (match_items_agree _ _ (header_re_agree p)),
    (match_items_agree _ _ (header_colon_re_agree p)), split_ws_ascii; done.
Qed.

Lemma is_header_ascii line :
  Forall is_ascii line -> is_header U line = is_header ascii_tables line.
Proof.
  intros Hl. unfold is_header.
  rewrite (ac_lower U U_ascii) by (by apply strip_is_ascii).
  rewrite strip_ascii by done. simpl u_lower.
  assert (Hll : Forall is_ascii (map ascii_lower_char (strip ascii_tables line)))
    by (by apply ascii_lower_is_ascii, strip_is_ascii).
  generalize dependent (map ascii_lower_char (strip ascii_tables line)).
  intros ll Hll. induction SECTION_HEADERS as [|[section patterns] hs IH];
    simpl; [done|].
  rewrite IH.
  assert (scan_patterns U section patterns line ll
          = scan_patterns ascii_tables section patterns line ll) as ->; [|done].
  induction patterns as [|p ps IHp]; simpl; [done|].
  by rewrite pattern_hit_ascii, IHp.
Qed.
End Ascii.

Lemma ascii_tables_compatible : ascii_compatible ascii_tables.
Proof. by split. Qed.

(** ** [str.strip] *)

Section Strip.
Context (U : Unicode).

Lemma lstrip_split s : exists pre, s = pre ++ lstrip U s /\ spaces U pre.
Proof.
  induction s as [|c s (pre & IH & Hpre)]; simpl.
  - exists []. split; [done|constructor].
  - destruct (u_isspace U c) eqn:Hc.
    + exists (c :: pre). split; [simpl; by rewrite <- IH|by constructor].
    + exists []. split; [done|constructor].
Qed.

Lemma lstrip_head s c t : lstrip U s = c :: t -> u_isspace U c = false.
Proof.
  induction s as [|c' s IH]; simpl; [done|].
  destruct (u_isspace U c') eqn:Hc; [done|]. by intros [= <- _].
Qed.

Lemma lstrip_fixed s :
  match s with c :: _ => u_isspace U c = false | [] => True end ->
  lstrip U s = s.
Proof. destruct s as [|c s]; simpl; [done|]. by intros ->. Qed.

Lemma lstrip_idem s : lstrip U (lstrip U s) = lstrip U s.
Proof.
  apply lstrip_fixed. destruct (lstrip U s) as [|c t] eqn:E; [done|].
  by apply lstrip_head in E.
Qed.

Lemma strip_idem s : strip U (strip U s) = strip U s.
Proof.
  unfold strip, rstrip.
  set (a := lstrip U s). set (b := lstrip U (rev a)).
  assert (Hb : lstrip U b = b) by apply lstrip_idem.
  assert (Ha : lstrip U (rev b) = rev b).
  { apply lstrip_fixed. destruct (rev b) as [|c t] eqn:E; [done|].
    destruct (lstrip_split (rev a)) as (pre & Hpre & _). fold b in Hpre.
    apply (f_equal (@rev char)) in Hpre.
    rewrite rev_involutive, rev_app_distr, E in Hpre. simpl in Hpre.
    by apply (lstrip_head s c (t ++ rev pre)). }
  by rewrite Ha, rev_involutive, Hb.
Qed.
End Strip.

(** ** Header lines in ASCII

    On a stripped ASCII line the whitespace that the patterns allow
    around the header is empty: the lowercased line is the pattern
    itself, or the pattern and a colon. *)

Lemma ascii_isspace_lower c : ascii_isspace (ascii_lower_char c) = ascii_isspace c.
Proof.
  unfold ascii_lower_char.
  destruct ((65 <=? c)%N && (c <=? 90)%N) eqn:E; [|done].
  apply andb_true_iff in E as [E1 E2]. apply N.leb_le in E1, E2.
  unfold ascii_isspace.
  assert ((c + 32 <=? 13)%N = false) as -> by (apply N.leb_gt; lia).
  assert ((c + 32 <=? 32)%N = false) as -> by (apply N.leb_gt; lia).
  assert ((c <=? 13)%N = false) as -> by (apply N.leb_gt; lia).
  assert ((c <=? 32)%N = false) as -> by (apply N.leb_gt; lia).
  by rewrite !andb_false_r.
Qed.

Lemma lstrip_lower s :
  lstrip ascii_tables (map ascii_lower_char s)
  = map ascii_lower_char (lstrip ascii_tables s).
Proof.
  induction s as [|c s IH]; simpl; [done|].
  rewrite ascii_isspace_lower. by destruct (ascii_isspace c).
Qed.

Lemma strip_lower s :
  strip ascii_tables (map ascii_lower_char s)
  = map ascii_lower_char (strip ascii_tables s).
Proof.
  unfold strip, rstrip. by rewrite lstrip_lower, <- map_rev, lstrip_lower, map_rev.
Qed.

Section Stripped.
Context (U : Unicode).

Lemma lstrip_lead lead a x :
  spaces U lead -> u_isspace U a = false -> lstrip U (lead ++ a :: x) = a :: x.
Proof.
  induction 1 as [|c lead Hc _ IH]; intros Ha; simpl.
  - by rewrite Ha.
  - rewrite Hc. auto.
Qed.

Lemma strip_fixed_ends s :
  strip U s = s -> lstrip U s = s /\ lstrip U (rev s) = rev s.
Proof.
  intros H. split.
  - rewrite <- H. unfold strip, rstrip.
    apply lstrip_fixed.
    destruct (rev (lstrip U (rev (lstrip U s)))) as [|c t] eqn:E; [done|].
    destruct (lstrip_split U (rev (lstrip U s))) as (pre & Hpre & _).
    apply (f_equal (@rev char)) in Hpre.
    rewrite rev_involutive, rev_app_distr, E in Hpre. simpl in Hpre.
    by apply (lstrip_head U s c (t ++ rev pre)).
  - rewrite <- H at 2. unfold strip, rstrip.
    rewrite <- H at 1. unfold strip, rstrip.
    by rewrite !rev_involutive, lstrip_idem.
Qed.

Lemma no_lead lead a x :
  spaces U lead -> u_isspace U a = false ->
  lstrip U (lead ++ a :: x) = lead ++ a :: x -> lead = [].
Proof.
  intros Hl Ha H. rewrite lstrip_lead in H by done.
  apply (f_equal length) in H. rewrite length_app in H.
  destruct lead; [done|simpl in H; lia].
Qed.

Hypothesis U_ascii : ascii_compatible U.

Lemma whole_line_stripped p s :
  headed p = true -> headed (rev p) = true ->
  whole_line U p s -> strip U s = s -> s = p \/ s = p ++ [ch ":"].
Proof.
  intros Hh Ht (lead & colon & trail & -> & Hlead & Hcolon & Htrail) Hs.
  apply strip_fixed_ends in Hs as [Hl Hr].
  apply (headed_not_space U U_ascii) in Hh as (a & p' & -> & Ha).
  simpl in Hl. apply no_lead in Hl as ->; [|done|done].
  assert (Hz : exists z y, rev (colon ++ trail) ++ rev (a :: p')
                 = rev trail ++ z :: y /\ u_isspace U z = false).
  { rewrite rev_app_distr, <- app_assoc.
    destruct Hcolon as [-> | ->].
    - apply (headed_not_space U U_ascii) in Ht as (z & y & -> & Hz). eauto.
    - exists (ch ":"), (rev (a :: p')). split; [done|].
      by rewrite (ac_isspace U U_ascii). }
  destruct Hz as (z & y & Hz & Hzs).
  rewrite app_nil_l, rev_app_distr, Hz in Hr.
  apply no_lead in Hr; [|by apply Forall_rev|done].
  apply (f_equal (@rev char)) in Hr. rewrite rev_involutive in Hr. simpl in Hr.
  subst trail. rewrite app_nil_l, app_nil_r.
  destruct Hcolon as [-> | ->]; [left; by rewrite app_nil_r|by right].
Qed.

Lemma strip_lower_ascii line :
  Forall is_ascii line -> strip U line = line ->
  u_lower U line = map ascii_lower_char line
  /\ strip U (u_lower U line) = u_lower U line.
Proof.
  intros Ha Hs. rewrite (ac_lower U U_ascii) by done. split; [done|].
  rewrite (strip_ascii U U_ascii) by (by apply ascii_lower_is_ascii).
  rewrite strip_lower. by rewrite <- (strip_ascii U U_ascii), Hs.
Qed.

(** The decision rule on a stripped ASCII line. *)
Lemma is_header_ascii_exact line section :
  Forall is_ascii line -> strip U line = line ->
  is_header U line = Some section <->
  (exists patterns p,
     In (section, patterns) SECTION_HEADERS /\ In p patterns
     /\ (map ascii_lower_char line = p
         \/ map ascii_lower_char line = p ++ [ch ":"]))
  /\ length (split_ws U line) <= 4.
Proof.
  intros Ha Hs. destruct (strip_lower_ascii line Ha Hs) as [Hlow Hfix].
  rewrite (is_header_Some U U_ascii), Hs, <- Hlow.
  split; intros [(ps & p & Hin & Hp & Hw) Hlen]; (split; [|done]);
    exists ps, p; split_and!; auto.
  - apply whole_line_stripped; auto.
    + by apply (patterns_headed section ps).
    + by apply (all_patterns_spec (fun _ p => headed (rev p)) eq_refl section ps).
  - destruct Hw as [-> | ->].
    + exists [], [], []. rewrite !app_nil_r. by split_and!; auto; constructor.
    + exists [], [ch ":"], []. rewrite !app_nil_r. by split_and!; auto; constructor.
Qed.
End Stripped.

(** C3. For every stripped line, [is_header] returns section [S] if and
    only if the lowercased line matches one of the patterns of [S]
    anchored to the whole line (with at most one colon right after the
    pattern) and the line has at most 4 whitespace-delimited tokens; a
    line that fails all patterns or has more than 4 tokens yields
    [None], which is a value and not an error. On an ASCII line the
    match is an equality: the lowercased line is the pattern, or the
    pattern and a colon. *)
Theorem C3_is_header_decision_rule (U : Unicode) (line : str) :
  ascii_compatible U -> strip U line = line ->
  (forall S, is_header U line = Some S <->
     section_matches U S (u_lower U line) /\ length (split_ws U line) <= 4)
  /\ (is_header U line = None <->
        (forall S, ~ section_matches U S (u_lower U line))
        \/ 4 < length (split_ws U line))
  /\ (Forall is_ascii line ->
      forall S, is_header U line = Some S <->
        (exists patterns p,
           In (S, patterns) SECTION_HEADERS /\ In p patterns
           /\ (map ascii_lower_char line = p
               \/ map ascii_lower_char line = p ++ [ch ":"]))
        /\ length (split_ws U line) <= 4).
Proof.
  intros HU Hstrip. split_and!.
  - intros S. pose proof (is_header_Some U HU line S) as H.
    by rewrite Hstrip in H.
  - pose proof (is_header_None U HU line) as H. by rewrite Hstrip in H.
  - intros Ha S. by apply is_header_ascii_exact.
Qed.

Lemma C3_is_header_decision_rule_witness :
  ascii_compatible ascii_tables
  /\ strip ascii_tables (py "Work History:") = py "Work History:"
  /\ is_header ascii_tables (py "Work History:") = Some "experience"%string.
Proof.
  split; [by split|]. split; [reflexivity|].
  destruct (C3_is_header_decision_rule ascii_tables (py "Work History:"))
    as (_ & _ & Hexact); [by split|reflexivity|].
  apply Hexact; [by apply all_ascii_spec|].
  split; [|vm_compute; lia].
  exists [py "experience"; py "employment"; py "work history";
          py "professional experience"], (py "work history").
  split; [simpl; tauto|]. split; [simpl; tauto|]. by right.
Defined.

(** ** The line pass *)

Section LinePass.
Context (U : Unicode).

Lemma is_header_named line section :
  is_header U line = Some section -> String.eqb section "" = false.
Proof.
  intros H. apply scan_sections_sound in H as (ps & _ & H & _).
  by apply sections_named in H.
Qed.

Lemma is_header_key line section :
  is_header U line = Some section -> is_Some (section_buffers0 !! section).
Proof.
  intros H. apply scan_sections_sound in H as (ps & _ & H & _).
  simpl in H. destruct H as [H|[H|[H|[H|[H|[]]]]]]; injection H as <- _;
    by eexists.
Qed.

Lemma bin_line_blank st line : strip U line = [] -> bin_line U st line = st.
Proof. intros H. destruct st. unfold bin_line. by rewrite H. Qed.

Lemma bin_line_header cur bufs line section :
  strip U line <> [] -> is_header U (strip U line) = Some section ->
  bin_line U (cur, bufs) line = (section, bufs).
Proof.
  intros Hne Hh. unfold bin_line. rewrite Hh. simpl.
  rewrite (is_header_named _ _ Hh). simpl. by destruct (strip U line).
Qed.

Lemma bin_line_body cur bufs line b :
  strip U line <> [] -> is_header U (strip U line) = None ->
  bufs !! cur = Some b ->
  bin_line U (cur, bufs) line = (cur, <[cur := b ++ [strip U line]]> bufs).
Proof.
  intros Hne Hh Hb. unfold bin_line. rewrite Hh, Hb. by destruct (strip U line).
Qed.

Lemma pass_inv_init : pass_inv U ("basics"%string, section_buffers0).
Proof.
  split_and!; simpl.
  - by eexists.
  - done.
  - intros k b H.
    assert (Hall : map_Forall (fun _ (b : list str) => b = []) section_buffers0).
    { unfold section_buffers0. repeat (apply map_Forall_insert_2; [done|]).
      apply map_Forall_empty. }
    apply Hall in H as ->. constructor.
Qed.

Lemma bin_line_inv st line : pass_inv U st -> pass_inv U (bin_line U st line).
Proof.
  destruct st as [cur bufs]. intros (Hcur & Hkeys & Hbuf).
  destruct (strip U line) as [|c t] eqn:Hs.
  { rewrite bin_line_blank by done. by split_and!. }
  assert (Hne : strip U line <> []) by (by rewrite Hs).
  destruct (is_header U (strip U line)) as [section|] eqn:Hh.
  - rewrite (bin_line_header cur bufs line section) by done.
    split_and!; simpl; auto. by apply Hkeys, (is_header_key (strip U line)).
  - destruct Hcur as [b Hb]. simpl in Hb.
    rewrite (bin_line_body cur bufs line b) by done.
    split_and!; simpl.
    + rewrite lookup_insert_eq. by eexists.
    + intros k Hk. apply lookup_insert_is_Some'. auto.
    + intros k b'. rewrite lookup_insert. case_decide as Hk.
      * intros [= <-]. apply Forall_app. split; [by apply (Hbuf cur)|].
        constructor; [|constructor]. split; [done|apply strip_idem].
      * apply Hbuf.
Qed.

Lemma fold_bin_line_inv lines : forall st,
  pass_inv U st -> pass_inv U (fold_left (bin_line U) lines st).
Proof.
  induction lines as [|l lines IH]; simpl; auto using bin_line_inv.
Qed.

Lemma pass1_inv lines : pass_inv U (pass1 U lines).
Proof. apply fold_bin_line_inv, pass_inv_init. Qed.

Lemma pass1_snoc lines line :
  pass1 U (lines ++ [line]) = bin_line U (pass1 U lines) line.
Proof. unfold pass1. by rewrite fold_left_app. Qed.
End LinePass.

(** C4, as amended. The pass starts in [basics] with empty buffers; a
    blank line changes neither the current section nor any buffer; a
    header line switches the current section and is not buffered; any
    other line is appended, stripped of its leading and trailing
    whitespace, to the buffer of the current section; and no buffer
    ever holds a blank line. *)
Theorem C4_line_pass (U : Unicode) (lines : list str) (line : str)
    (cur : string) (bufs : gmap string (list str)) :
  pass1 U lines = (cur, bufs) ->
  pass1 U [] = ("basics"%string, section_buffers0)
  /\ (strip U line = [] -> pass1 U (lines ++ [line]) = (cur, bufs))
  /\ (forall S, strip U line <> [] -> is_header U (strip U line) = Some S ->
        pass1 U (lines ++ [line]) = (S, bufs))
  /\ (strip U line <> [] -> is_header U (strip U line) = None ->
        exists b, bufs !! cur = Some b
          /\ pass1 U (lines ++ [line])
             = (cur, <[cur := b ++ [strip U line]]> bufs))
  /\ (forall k b, bufs !! k = Some b -> Forall (fun x => strip U x <> []) b).
Proof.
  intros Hp. pose proof (pass1_inv U lines) as (Hcur & _ & Hbuf).
  rewrite Hp in Hcur, Hbuf. simpl in Hcur, Hbuf.
  rewrite pass1_snoc, Hp. split_and!.
  - done.
  - by apply bin_line_blank.
  - intros S. by apply bin_line_header.
  - intros Hne Hh. destruct Hcur as [b Hb]. exists b. split; [done|].
    by apply bin_line_body.
  - intros k b Hb. eapply Forall_impl; [exact (Hbuf k b Hb)|].
    intros x [Hx Hs]. simpl in *. by rewrite Hs.
Qed.

Lemma C4_line_pass_witness :
  pass1 ascii_tables [py "Jane Doe"; py "Skills"]
    = ("skills"%string, <["basics"%string := [py "Jane Doe"]]> section_buffers0)
  /\ pass1 ascii_tables ([py "Jane Doe"; py "Skills"] ++ [py " Rocq "])
     = ("skills"%string,
        <["skills"%string := [] ++ [py "Rocq"]]>
          (<["basics"%string := [py "Jane Doe"]]> section_buffers0)).
Proof.
  assert (Hp : pass1 ascii_tables [py "Jane Doe"; py "Skills"]
    = ("skills"%string, <["basics"%string := [py "Jane Doe"]]> section_buffers0))
    by (vm_compute; reflexivity).
  split; [exact Hp|].
  destruct (C4_line_pass ascii_tables _ (py " Rocq ") _ _ Hp)
    as (_ & _ & _ & Hbody & _).
  destruct Hbody as (b & Hb & Heq); [by vm_compute|by vm_compute|].
  rewrite Heq. repeat f_equal.
  rewrite lookup_insert_ne in Hb by done. by injection Hb as <-.
Defined.

(** C4 as stated fails on a line with whitespace around its text: what
    is buffered is the stripped line, not the line as it stands. *)
Lemma C4_verbatim_counterexample :
  strip ascii_tables (py "  Jane Doe ") <> []
  /\ is_header ascii_tables (strip ascii_tables (py "  Jane Doe ")) = None
  /\ snd (pass1 ascii_tables [py "  Jane Doe "]) !! "basics"%string
     = Some [py "Jane Doe"]
  /\ [py "Jane Doe"] <> [py "  Jane Doe "].
Proof. by vm_compute. Qed.

(** The same on every character database that has the ASCII rows. *)
Lemma line_not_buffered_verbatim (U : Unicode) :
  ascii_compatible U ->
  pass1 U [py "  Jane Doe "]
  = ("basics"%string, <["basics"%string := [py "Jane Doe"]]> section_buffers0).
Proof.
  intros HU. unfold pass1. cbn [fold_left].
  assert (Hs : strip U (py "  Jane Doe ") = py "Jane Doe")
    by (by rewrite (strip_ascii U HU) by (by apply all_ascii_spec)).
  rewrite (bin_line_body U _ _ _ []); rewrite ?Hs; try done.
  by rewrite (is_header_ascii U HU) by (by apply all_ascii_spec).
Qed.

(** C8 as stated fails on its count: the line has four tokens, so the
    cap of four lets it through. *)
Lemma C8_token_cap_counterexample :
  length (split_ws ascii_tables (py "My Work Experience Summary")) = 4
  /\ (length (split_ws ascii_tables (py "My Work Experience Summary")) <=? 4)
     = true.
Proof. by vm_compute. Qed.

(** C8, as amended. The line "My Work Experience Summary" has four
    tokens and passes the cap; it is not a header because no pattern
    matches the whole of it, and it is buffered as content of the
    current section. *)
Theorem C8_sentence_with_header_word (U : Unicode) :
  ascii_compatible U ->
  let line := py "My Work Experience Summary" in
  is_header U line = None
  /\ length (split_ws U line) = 4
  /\ (forall S, ~ section_matches U S (u_lower U (strip U line)))
  /\ (forall cur bufs b, bufs !! cur = Some b ->
        bin_line U (cur, bufs) line = (cur, <[cur := b ++ [line]]> bufs)).
Proof.
  intros HU line.
  assert (Ha : Forall is_ascii line) by (by apply all_ascii_spec).
  assert (Hh : is_header U line = None) by (by rewrite (is_header_ascii U HU)).
  assert (Hn : length (split_ws U line) = 4) by (by rewrite (split_ws_ascii U HU)).
  assert (Hs : strip U line = line) by (by rewrite (strip_ascii U HU)).
  split_and!; auto.
  - apply (is_header_None U HU) in Hh as [Hh|Hh]; [done|lia].
  - intros cur bufs b Hb.
    rewrite (bin_line_body U cur bufs line b); rewrite ?Hs; done.
Qed.

Lemma C8_sentence_with_header_word_witness :
  ascii_compatible ascii_tables
  /\ is_header ascii_tables (py "My Work Experience Summary") = None.
Proof.
  split; [by split|].
  apply (C8_sentence_with_header_word ascii_tables). by split.
Defined.

(** ** The record the builder returns *)

Lemma parser_assembled (U : Unicode) (raw_text : str) :
  naive_structure_parser U raw_text
  = Ok (assembled U (snd (pass1 U (split_on nl raw_text))) raw_text).
Proof.
  unfold naive_structure_parser, assembled.
  pose proof (pass1_inv U (split_on nl raw_text)) as (_ & Hkeys & _).
  set (bufs := snd (pass1 U (split_on nl raw_text))) in *.
  destruct (Hkeys "basics"%string) as [basics Hb]; [by eexists|].
  destruct (Hkeys "summary"%string) as [summary Hsu]; [by eexists|].
  destruct (Hkeys "experience"%string) as [experience Hex]; [by eexists|].
  destruct (Hkeys "education"%string) as [education Hed]; [by eexists|].
  destruct (Hkeys "skills"%string) as [skills Hsk]; [by eexists|].
  unfold buffer, first_match. cbv beta zeta.
  rewrite Hb, Hsu, Hex, Hed, Hsk. simpl.
  remember (join [nl] basics) as text eqn:Htext.
  destruct (re_search (EMAIL_RE U) text), (re_search (PHONE_RE U) text), basics;
    reflexivity.
Qed.

(** C1. For every input text the builder returns, and does not raise;
    the record has the keys [basics] (with [full_name], [email],
    [phone], [linkedin]), [summary], [experience], [education],
    [skills] (with [technical], [tools], [soft]) and [raw_text], and
    its [raw_text] is the input as given, also when all else is empty,
    as on the empty text. *)
Theorem C1_builder_total (U : Unicode) (raw_text : str) :
  (exists full_name email phone summary experience education technical,
     naive_structure_parser U raw_text
     = Ok [ ("basics"%string,
              JDict [("full_name"%string, JStr full_name);
                     ("email"%string, JStr email);
                     ("phone"%string, JStr phone);
                     ("linkedin"%string, JStr [])]);
            ("summary"%string, JStr summary);
            ("experience"%string, JList experience);
            ("education"%string, JList education);
            ("skills"%string,
              JDict [("technical"%string, JList technical);
                     ("tools"%string, JList []); ("soft"%string, JList [])]);
            ("raw_text"%string, JStr raw_text) ])
  /\ naive_structure_parser U [] = Ok (resume_data0 []).
Proof.
  split; [|reflexivity].
  rewrite parser_assembled. unfold assembled, dump.
  set (b := fun k => default [] (snd (pass1 U (split_on nl raw_text)) !! k)).
  destruct (b "experience"%string) eqn:Hex, (b "education"%string) eqn:Hed;
    unfold b in Hex, Hed; rewrite Hex, Hed; eauto 10.
Qed.

(** ** [re.search]: the leftmost match *)

Lemma search_from_sound r s : forall pos i e,
  search_from r pos s = Some (i, e) ->
  exists pre m post,
    s = pre ++ m ++ post /\ i = pos + length pre /\ e = i + length m
    /\ matches r i m post
    /\ forall pre' m' post',
         s = pre' ++ m' ++ post' -> length pre' < length pre ->
         ~ matches r (pos + length pre') m' post'.
Proof.
  induction s as [|c s IH]; intros pos i e H; simpl in H.
  - destruct (match_items r pos []) as [e'|] eqn:Hm; [|discriminate].
    injection H as <- <-.
    apply match_items_sound in Hm as (m & post & Heq & -> & Hm').
    exists [], m, post. rewrite Nat.add_0_r. split_and!; auto.
    simpl. intros. lia.
  - destruct (match_items r pos (c :: s)) as [e'|] eqn:Hm.
    + injection H as <- <-.
      apply match_items_sound in Hm as (m & post & Heq & -> & Hm').
      exists [], m, post. rewrite Nat.add_0_r. split_and!; auto.
      simpl. intros. lia.
    + apply IH in H as (pre & m & post & -> & -> & -> & Hr & Hmin).
      exists (c :: pre), m, post. simpl.
      replace (pos + S (length pre)) with (S pos + length pre) by lia.
      split_and!; auto.
      intros [|c' pre'] m' post' Heq Hlt Hm'.
      * simpl in Heq. rewrite Nat.add_0_r in Hm'.
        apply match_items_complete in Hm' as [e' He']. simpl in *. congruence.
      * injection Heq as -> Heq. apply (Hmin pre' m' post' Heq); [simpl in Hlt; lia|].
        by replace (S pos + length pre') with (pos + length (c' :: pre'))
          by (simpl; lia).
Qed.

Lemma search_from_none r s : forall pos,
  search_from r pos s = None ->
  forall pre m post,
    s = pre ++ m ++ post -> ~ matches r (pos + length pre) m post.
Proof.
  induction s as [|c s IH]; intros pos H pre m post Heq Hm; simpl in H.
  - destruct (match_items r pos []) eqn:Hn; [discriminate|].
    symmetry in Heq. apply app_eq_nil in Heq as [-> Heq].
    rewrite Nat.add_0_r in Hm.
    apply match_items_complete in Hm as [e He]. simpl in *. congruence.
  - destruct (match_items r pos (c :: s)) eqn:Hn; [discriminate|].
    destruct pre as [|c' pre]; simpl in *.
    + rewrite Nat.add_0_r in Hm.
      apply match_items_complete in Hm as [e He]. congruence.
    + injection Heq as -> Heq. apply (IH (S pos) H pre m post Heq).
      by replace (S pos + length pre) with (pos + S (length pre)) by lia.
Qed.

Lemma group0_span pre m post :
  group0 (pre ++ m ++ post) (length pre, length pre + length m) = m.
Proof.
  unfold group0. simpl.
  rewrite drop_app_length.
  replace (length pre + length m - length pre) with (length m) by lia.
  by rewrite take_app_length.
Qed.

Lemma first_match_first_shaped r (P : str -> Prop) text :
  (forall pos m post, matches r pos m post <-> P m) ->
  first_shaped P text (first_match r text).
Proof.
  intros HP. unfold first_match, re_search.
  destruct (search_from r 0 text) as [[i e]|] eqn:Hs.
  - right. apply search_from_sound in Hs
      as (pre & m & post & -> & -> & -> & Hm & Hmin).
    simpl. rewrite group0_span. exists (length pre). split_and!.
    + by exists pre, post.
    + by apply HP in Hm.
    + intros j m' Hj (pre' & post' & Heq & <-) Hm'.
      apply (Hmin pre' m' post' Heq Hj). by apply HP.
  - left. split; [done|]. intros i m' (pre & post & Heq & <-) Hm'.
    apply (search_from_none r text 0 Hs pre m' post Heq). by apply HP.
Qed.

Section Shapes.
Context (U : Unicode).

Lemma exactly_one_inv (a : char) w :
  Forall (fun c => N.eqb a c = true) w -> 1 <= length w ->
  fits (Some 1) (length w) -> w = [a].
Proof.
  destruct w as [|x [|? ?]]; simpl; intros Hw Hlo Hhi; try lia.
  inversion Hw as [|? ? Hx _]; subst. by apply N.eqb_eq in Hx as <-.
Qed.

Lemma nonempty_length {A : Type} (l : list A) : 1 <= length l <-> l <> [].
Proof. destruct l; simpl; split; (done || lia). Qed.

Lemma EMAIL_RE_shape pos m post :
  matches (EMAIL_RE U) pos m post <-> email_shaped U m.
Proof.
  unfold EMAIL_RE, email_shaped, plus, lit1. split.
  - intros H.
    apply matches_rep_inv in H as (a & m1 & -> & Ha & Hla & _ & H).
    apply matches_rep_inv in H as (w1 & m2 & -> & Hw1 & Hl1 & Hh1 & H).
    apply matches_rep_inv in H as (b & m3 & -> & Hb & Hlb & _ & H).
    apply matches_rep_inv in H as (w2 & m4 & -> & Hw2 & Hl2 & Hh2 & H).
    apply matches_rep_inv in H as (c & m5 & -> & Hc & Hlc & _ & H).
    apply matches_nil_inv in H as ->.
    apply exactly_one_inv in Hw1 as ->; auto.
    apply exactly_one_inv in Hw2 as ->; auto.
    exists a, b, c. rewrite app_nil_r, <- !nonempty_length. by split_and!.
  - intros (a & b & c & -> & Ha & Hb & Hc & Fa & Fb & Fc).
    rewrite <- nonempty_length in Ha, Hb, Hc.
    replace c with (c ++ []) by apply app_nil_r.
    repeat (apply matches_rep;
            [first [done|constructor; [apply N.eqb_refl|constructor]]
            |simpl; lia|simpl; first [done|lia]|]).
    constructor.
Qed.


End Shapes.

(** ** Lines of content *)

Lemma split_on_line x : nl ∉ x -> split_on nl x = [x].
Proof.
  induction x as [|c x IH]; simpl; [done|]. intros H.
  apply not_elem_of_cons in H as [Hc Hx].
  destruct (N.eqb_spec c nl) as [->|_]; [done|]. by rewrite IH.
Qed.

Lemma split_on_cons x rest :
  nl ∉ x -> split_on nl (x ++ nl :: rest) = x :: split_on nl rest.
Proof.
  induction x as [|c x IH]; simpl; [done|]. intros H.
  apply not_elem_of_cons in H as [Hc Hx].
  destruct (N.eqb_spec c nl) as [->|_]; [done|]. by rewrite IH.
Qed.

Lemma split_on_join lines :
  Forall (fun l => nl ∉ l) lines -> lines <> [] ->
  split_on nl (join [nl] lines) = lines.
Proof.
  induction 1 as [|x lines Hx Hl IH]; [done|]. intros _.
  destruct lines as [|y lines]; simpl.
  - by apply split_on_line.
  - rewrite split_on_cons by done. f_equal. by apply IH.
Qed.

Section Content.
Context (U : Unicode).

Lemma fold_body_lines lines : forall cur (bufs : gmap string (list str)) b,
  Forall (body_line U) lines -> bufs !! cur = Some b ->
  fold_left (bin_line U) lines (cur, bufs) = (cur, <[cur := b ++ lines]> bufs).
Proof.
  induction lines as [|l lines IH]; intros cur bufs b Hl Hb; cbn [fold_left].
  - by rewrite app_nil_r, insert_id.
  - inversion Hl as [|? ? (Hne & Hs & Hh & _) Hl']; subst.
    assert (bin_line U (cur, bufs) l = (cur, <[cur := b ++ [l]]> bufs)) as ->.
    { rewrite (bin_line_body U cur bufs l b); rewrite ?Hs; done. }
    rewrite (IH cur _ (b ++ [l])); [|done|apply lookup_insert_eq].
    by rewrite insert_insert_eq, <- app_assoc.
Qed.

Hypothesis U_ascii : ascii_compatible U.


Lemma header_line_ascii cur (bufs : gmap string (list str)) l section :
  all_ascii l = true -> strip ascii_tables l = l -> l <> [] ->
  is_header ascii_tables l = Some section ->
  bin_line U (cur, bufs) l = (section, bufs).
Proof.
  intros Ha Hs Hne Hh. apply all_ascii_spec in Ha.
  assert (Hs' : strip U l = l) by (by rewrite (strip_ascii U U_ascii)).
  apply bin_line_header; rewrite Hs'; [done|].
  by rewrite (is_header_ascii U U_ascii).
Qed.
End Content.



(** C6. [experience], and likewise [education], is the empty sequence
    when its buffer is empty, and otherwise the one-element sequence of
    the object whose [text_dump] is the lines of the buffer joined by
    newlines; a line "Experience", three lines of content, a line
    "Education" and two lines of content give one dump of the three
    lines and one dump of the two. *)
Theorem C6_text_dumps (U : Unicode) (raw_text : str) :
  (exists r,
     naive_structure_parser U raw_text = Ok r
     /\ forall key, key = "experience"%string \/ key = "education"%string ->
        let b : list str :=
          default [] (snd (pass1 U (split_on nl raw_text)) !! key) in
        (b = [] -> dict_get key r = Some (JList []))
        /\ (b <> [] ->
            dict_get key r
            = Some (JList [JDict [("text_dump"%string, JStr (join [nl] b))]])))
  /\ (ascii_compatible U ->
      forall e1 e2 e3 d1 d2,
        Forall (body_line U) [e1; e2; e3; d1; d2] ->
        exists r,
          naive_structure_parser U
            (join [nl] [py "Experience"; e1; e2; e3; py "Education"; d1; d2])
          = Ok r
          /\ dict_get "experience" r
             = Some (JList [JDict [("text_dump"%string,
                                    JStr (join [nl] [e1; e2; e3]))]])
          /\ dict_get "education" r
             = Some (JList [JDict [("text_dump"%string,
                                    JStr (join [nl] [d1; d2]))]])).
Proof.
  split.
  - eexists. split; [apply parser_assembled|].
    intros key [-> | ->] b; unfold assembled; cbn [dict_get String.eqb Ascii.eqb Bool.eqb];
      fold b; unfold dump; by destruct b.
  - intros HU e1 e2 e3 d1 d2 Hb.
    eexists. split; [apply parser_assembled|].
    apply Forall_cons in Hb as [H1 Hb]. apply Forall_cons in Hb as [H2 Hb].
    apply Forall_cons in Hb as [H3 Hb].
    rewrite split_on_join; [| |done].
    2:{ apply Forall_cons in Hb as [H4 Hb]. apply Forall_cons in Hb as [H5 _].
        repeat (apply Forall_cons_2;
                  [first [ by apply (bool_decide_unpack _) | apply H1 | apply H2
                         | apply H3 | apply H4 | apply H5 ]|]).
        apply Forall_nil_2. }
    unfold pass1.
    change [py "Experience"; e1; e2; e3; py "Education"; d1; d2]
      with ([py "Experience"] ++ [e1; e2; e3] ++ [py "Education"] ++ [d1; d2]).
    rewrite !fold_left_app.
    change (fold_left (bin_line U) [py "Experience"] ?st)
      with (bin_line U st (py "Experience")).
    rewrite (header_line_ascii U HU _ _ _ "experience") by (by vm_compute).
    rewrite (fold_body_lines U [e1; e2; e3] _ _ []);
      [|by repeat apply Forall_cons_2|done].
    change (fold_left (bin_line U) [py "Education"] ?st)
      with (bin_line U st (py "Education")).
    rewrite (header_line_ascii U HU _ _ _ "education") by (by vm_compute).
    rewrite (fold_body_lines U [d1; d2] _ _ []); [|done|done].
    unfold assembled. cbn [dict_get String.eqb Ascii.eqb Bool.eqb snd].
    rewrite lookup_insert_eq, lookup_insert_ne, lookup_insert_eq by done.
    done.
Qed.

Lemma C6_text_dumps_witness :
  ascii_compatible ascii_tables
  /\ Forall (body_line ascii_tables)
       [py "Acme Corp"; py "2019 - 2021"; py "Built the billing service";
        py "State University"; py "BSc, 2018"]
  /\ exists r,
       naive_structure_parser ascii_tables
         (join [nl] [py "Experience"; py "Acme Corp"; py "2019 - 2021";
                     py "Built the billing service"; py "Education";
                     py "State University"; py "BSc, 2018"])
       = Ok r
       /\ dict_get "experience" r
          = Some (JList [JDict [("text_dump"%string,
               JStr (join [nl] [py "Acme Corp"; py "2019 - 2021";
                                py "Built the billing service"]))]])
       /\ dict_get "education" r
          = Some (JList [JDict [("text_dump"%string,
               JStr (join [nl] [py "State University"; py "BSc, 2018"]))]]).
Proof.
  assert (Hb : Forall (body_line ascii_tables)
       [py "Acme Corp"; py "2019 - 2021"; py "Built the billing service";
        py "State University"; py "BSc, 2018"]).
  { repeat (apply Forall_cons_2;
      [split_and!; try (by vm_compute); by apply (bool_decide_unpack _)|]).
    apply Forall_nil_2. }
  split; [by split|]. split; [exact Hb|].
  apply (C6_text_dumps ascii_tables []); [by split|exact Hb].
Defined.

(** ** The orchestrator *)

Lemma paddleocr_raises_Exception E pdf_path e :
  extract_text_paddleocr E pdf_path = Raise e -> is_Exception e = true.
Proof.
  unfold extract_text_paddleocr. destruct (ocr E) as [f|]; [|by intros [= <-]].
  destruct (f pdf_path); simpl; [done|by intros [= <-]].
Qed.

Lemma pdfplumber_raises E pdf_path e :
  extract_text_pdfplumber E pdf_path = Raise e -> exists msg, e = EngineError msg.
Proof.
  unfold extract_text_pdfplumber. destruct (pdfplumber E) as [f|]; [|done].
  destruct (f pdf_path); simpl; [done|intros [= <-]; eauto].
Qed.

Lemma utf8_env_unhindered pdf engine req_id :
  utf8_error (out_path req_id) = None -> unhindered (utf8_env pdf engine) req_id.
Proof. intros H. by split_and!. Qed.

Lemma finish_unhindered E req_id record w :
  unhindered E req_id ->
  finish E req_id record w
  = ({| fs := <[out_path req_id := JsonFile record]> (fs w);
        stdout := stdout w ++ out_path req_id ++ [nl];
        stderr := stderr w;
        log := log w ++ [FileWrite (out_path req_id)] |}, 0%Z).
Proof. intros (_ & _ & Hw & Hp). unfold finish. by rewrite Hw, Hp. Qed.

Lemma finish_exit_code E req_id record w :
  let '(w', code) := finish E req_id record w in
  (code = 0%Z
   /\ write_error E (out_path req_id) (JsonFile record) = None
   /\ print_error E (out_path req_id) = None
   /\ stdout w' = stdout w ++ out_path req_id ++ [nl])
  \/ (code = 1%Z
      /\ (write_error E (out_path req_id) (JsonFile record) <> None
          \/ print_error E (out_path req_id) <> None)
      /\ stdout w' = stdout w).
Proof.
  unfold finish.
  destruct (write_error E (out_path req_id) (JsonFile record))
    as [[msg [f|]]|]; [right; split_and!; auto..|].
  destruct (print_error E (out_path req_id)); [right|left]; split_and!; auto.
Qed.


Section Runs.
Context (U : Unicode) (E : env) (files : gmap str file) (req_id pdf_path : str).

Lemma run_init_failed msg :
  ocr_init_error E = Some msg ->
  run U E files req_id pdf_path
  = ({| fs := files; stdout := []; stderr := []; log := [] |}, 1%Z).
Proof.
  intros H. unfold run, startup, mbind, M_bind, raise. by rewrite H.
Qed.

Lemma run_makedirs_failed msg :
  ocr_init_error E = None ->
  makedirs_error E (task_dir req_id) = Some msg ->
  run U E files req_id pdf_path
  = ({| fs := files; stdout := []; stderr := warning E;
        log := [Makedirs (task_dir req_id)] |}, 1%Z).
Proof.
  intros Hi Hm.
  unfold run, startup, main, warning, makedirs, mbind, M_bind, mret, M_ret,
    eprint.
  rewrite Hi. destruct (ocr E); cbn beta iota; by rewrite Hm.
Qed.

Lemma run_fatal e :
  ocr_init_error E = None ->
  makedirs_error E (task_dir req_id) = None ->
  extract_text_pdfplumber E pdf_path = Raise e ->
  run U E files req_id pdf_path
  = ({| fs := files; stdout := []; stderr := warning E;
        log := [Makedirs (task_dir req_id); PlumberCall pdf_path] |},
     1%Z).
Proof.
  intros Hi Hm H. destruct (pdfplumber_raises _ _ _ H) as [msg ->].
  unfold run, startup, main, warning, makedirs, mbind, M_bind, mret, M_ret,
    lift, trace, eprint.
  rewrite Hi. destruct (ocr E); cbn beta iota; by rewrite Hm, H.
Qed.

Ltac run_to_finish :=
  unfold run, startup, main, choose_text, try_except, warning, makedirs, mbind,
    M_bind, mret, M_ret, lift, trace, eprint, print, write_file, raise, finish,
    stamped.

Ltac run_finish :=
  rewrite parser_assembled; cbn [fs stdout stderr log];
  match goal with
  | |- context [write_error ?E ?p (JsonFile ?r)] =>
      destruct (write_error E p (JsonFile r)) as [[? [?|]]|];
        [reflexivity..|]
  end;
  destruct (print_error E (out_path req_id)); reflexivity.

Lemma run_native_finish native :
  ocr_init_error E = None ->
  makedirs_error E (task_dir req_id) = None ->
  extract_text_pdfplumber E pdf_path = Ok native ->
  (length (strip U native) <? 50) = false ->
  run U E files req_id pdf_path
  = finish E req_id
      (stamped (py "pdfplumber")
         (assembled U (snd (pass1 U (split_on nl native))) native))
      {| fs := files; stdout := []; stderr := warning E;
         log := [Makedirs (task_dir req_id); PlumberCall pdf_path] |}.
Proof.
  intros Hi Hm H Hlen. run_to_finish.
  rewrite Hi. destruct (ocr E); cbn [fs stdout stderr log]; rewrite Hm, H; cbn [fs stdout stderr log];
    rewrite Hlen; run_finish.
Qed.

Lemma run_ocr_finish text native :
  ocr_init_error E = None ->
  makedirs_error E (task_dir req_id) = None ->
  extract_text_pdfplumber E pdf_path = Ok native ->
  (length (strip U native) <? 50) = true ->
  extract_text_paddleocr E pdf_path = Ok text ->
  write_error E (ocr_path req_id) (TextFile text) = None ->
  run U E files req_id pdf_path
  = finish E req_id
      (stamped (py "paddleocr")
         (assembled U (snd (pass1 U (split_on nl text))) text))
      {| fs := <[ocr_path req_id := TextFile text]> files;
         stdout := []; stderr := warning E;
         log := [Makedirs (task_dir req_id); PlumberCall pdf_path;
                 OcrCall pdf_path; FileWrite (ocr_path req_id)] |}.
Proof.
  intros Hi Hm H Hlen Hocr Ht. run_to_finish.
  rewrite Hi. destruct (ocr E); cbn [fs stdout stderr log]; rewrite Hm, H; cbn [fs stdout stderr log];
    rewrite Hlen; cbn [fs stdout stderr log]; rewrite Hocr; cbn [fs stdout stderr log]; rewrite Ht;
    cbn [fs stdout stderr log]; run_finish.
Qed.

(** The transcript is refused: the [except] clause takes over. *)
Lemma run_ocr_unwritten_finish text native msg residue :
  ocr_init_error E = None ->
  makedirs_error E (task_dir req_id) = None ->
  extract_text_pdfplumber E pdf_path = Ok native ->
  (length (strip U native) <? 50) = true ->
  extract_text_paddleocr E pdf_path = Ok text ->
  write_error E (ocr_path req_id) (TextFile text) = Some (msg, residue) ->
  run U E files req_id pdf_path
  = finish E req_id
      (stamped (py "paddleocr")
         (assembled U (snd (pass1 U (split_on nl FAILED_EXTRACTION)))
            FAILED_EXTRACTION))
      {| fs := match residue with
               | Some f => <[ocr_path req_id := f]> files
               | None => files
               end;
         stdout := [];
         stderr := warning E ++ (py "OCR Failed: " ++ msg) ++ [nl];
         log := [Makedirs (task_dir req_id); PlumberCall pdf_path;
                 OcrCall pdf_path; FileWrite (ocr_path req_id)] |}.
Proof.
  intros Hi Hm H Hlen Hocr Ht. run_to_finish.
  rewrite Hi. destruct (ocr E); cbn [fs stdout stderr log]; rewrite Hm, H; cbn [fs stdout stderr log];
    rewrite Hlen; cbn [fs stdout stderr log]; rewrite Hocr; cbn [fs stdout stderr log]; rewrite Ht;
    cbn [is_Exception]; cbn [fs stdout stderr log]; run_finish.
Qed.

Lemma run_ocr_failed_finish e native :
  ocr_init_error E = None ->
  makedirs_error E (task_dir req_id) = None ->
  extract_text_pdfplumber E pdf_path = Ok native ->
  (length (strip U native) <? 50) = true ->
  extract_text_paddleocr E pdf_path = Raise e ->
  run U E files req_id pdf_path
  = finish E req_id
      (stamped (py "paddleocr")
         (assembled U (snd (pass1 U (split_on nl FAILED_EXTRACTION)))
            FAILED_EXTRACTION))
      {| fs := files; stdout := [];
         stderr := warning E ++ (py "OCR Failed: " ++ exn_str e) ++ [nl];
         log := [Makedirs (task_dir req_id); PlumberCall pdf_path;
                 OcrCall pdf_path] |}.
Proof.
  intros Hi Hm H Hlen Hocr.
  pose proof (paddleocr_raises_Exception _ _ _ Hocr) as He. run_to_finish.
  rewrite Hi. destruct (ocr E); cbn [fs stdout stderr log]; rewrite Hm, H; cbn [fs stdout stderr log];
    rewrite Hlen; cbn [fs stdout stderr log]; rewrite Hocr; cbn [fs stdout stderr log]; rewrite He;
    cbn [fs stdout stderr log]; run_finish.
Qed.

Lemma run_native native :
  unhindered E req_id ->
  extract_text_pdfplumber E pdf_path = Ok native ->
  (length (strip U native) <? 50) = false ->
  run U E files req_id pdf_path
  = ({| fs := <[out_path req_id :=
                  JsonFile (stamped (py "pdfplumber")
                    (assembled U (snd (pass1 U (split_on nl native))) native))]>
                files;
        stdout := out_path req_id ++ [nl];
        stderr := warning E;
        log := [Makedirs (task_dir req_id); PlumberCall pdf_path;
                FileWrite (out_path req_id)] |},
     0%Z).
Proof.
  intros Hh H Hlen. pose proof Hh as (Hi & Hm & _).
  by rewrite (run_native_finish native), finish_unhindered.
Qed.

Lemma run_ocr text native :
  unhindered E req_id ->
  extract_text_pdfplumber E pdf_path = Ok native ->
  (length (strip U native) <? 50) = true ->
  extract_text_paddleocr E pdf_path = Ok text ->
  write_error E (ocr_path req_id) (TextFile text) = None ->
  run U E files req_id pdf_path
  = ({| fs := <[out_path req_id :=
                  JsonFile (stamped (py "paddleocr")
                    (assembled U (snd (pass1 U (split_on nl text))) text))]>
                (<[ocr_path req_id := TextFile text]> files);
        stdout := out_path req_id ++ [nl];
        stderr := warning E;
        log := [Makedirs (task_dir req_id); PlumberCall pdf_path;
                OcrCall pdf_path; FileWrite (ocr_path req_id);
                FileWrite (out_path req_id)] |},
     0%Z).
Proof.
  intros Hh H Hlen Hocr Ht. pose proof Hh as (Hi & Hm & _).
  by rewrite (run_ocr_finish text native), finish_unhindered.
Qed.

Lemma run_ocr_unwritten text native msg residue :
  unhindered E req_id ->
  extract_text_pdfplumber E pdf_path = Ok native ->
  (length (strip U native) <? 50) = true ->
  extract_text_paddleocr E pdf_path = Ok text ->
  write_error E (ocr_path req_id) (TextFile text) = Some (msg, residue) ->
  run U E files req_id pdf_path
  = ({| fs := <[out_path req_id :=
                  JsonFile (stamped (py "paddleocr")
                    (assembled U
                       (snd (pass1 U (split_on nl FAILED_EXTRACTION)))
                       FAILED_EXTRACTION))]>
                (match residue with
                 | Some f => <[ocr_path req_id := f]> files
                 | None => files
                 end);
        stdout := out_path req_id ++ [nl];
        stderr := warning E ++ (py "OCR Failed: " ++ msg) ++ [nl];
        log := [Makedirs (task_dir req_id); PlumberCall pdf_path;
                OcrCall pdf_path; FileWrite (ocr_path req_id);
                FileWrite (out_path req_id)] |},
     0%Z).
Proof.
  intros Hh H Hlen Hocr Ht. pose proof Hh as (Hi & Hm & _).
  by rewrite (run_ocr_unwritten_finish text native msg residue),
    finish_unhindered.
Qed.

Lemma run_ocr_failed e native :
  unhindered E req_id ->
  extract_text_pdfplumber E pdf_path = Ok native ->
  (length (strip U native) <? 50) = true ->
  extract_text_paddleocr E pdf_path = Raise e ->
  run U E files req_id pdf_path
  = ({| fs := <[out_path req_id :=
                  JsonFile (stamped (py "paddleocr")
                    (assembled U
                       (snd (pass1 U (split_on nl FAILED_EXTRACTION)))
                       FAILED_EXTRACTION))]>
                files;
        stdout := out_path req_id ++ [nl];
        stderr := warning E ++ (py "OCR Failed: " ++ exn_str e) ++ [nl];
        log := [Makedirs (task_dir req_id); PlumberCall pdf_path;
                OcrCall pdf_path; FileWrite (out_path req_id)] |},
     0%Z).
Proof.
  intros Hh H Hlen Hocr. pose proof Hh as (Hi & Hm & _).
  by rewrite (run_ocr_failed_finish e native), finish_unhindered.
Qed.

(** Every run: it ends before the text is chosen, with exit code 1 and
    no file written, or it goes through [finish] from a world in which
    at most the transcript was written. *)
Lemma run_stages :
  (exists w,
     run U E files req_id pdf_path = (w, 1%Z)
     /\ fs w = files /\ stdout w = []
     /\ (forall p, OcrCall p ∉ log w) /\ (forall p, FileWrite p ∉ log w)
     /\ (ocr_init_error E <> None
         \/ makedirs_error E (task_dir req_id) <> None
         \/ exists e, extract_text_pdfplumber E pdf_path = Raise e))
  \/ (exists record w,
        run U E files req_id pdf_path = finish E req_id record w
        /\ ocr_init_error E = None
        /\ makedirs_error E (task_dir req_id) = None
        /\ (exists native, extract_text_pdfplumber E pdf_path = Ok native)
        /\ stdout w = []
        /\ (forall path, path <> ocr_path req_id -> fs w !! path = files !! path)
        /\ (forall path, path <> ocr_path req_id -> FileWrite path ∉ log w)).
Proof.
  assert (Hno : forall (l : list event),
            Forall (fun ev => match ev with
                              | OcrCall _ | FileWrite _ => False
                              | _ => True
                              end) l ->
            (forall p, OcrCall p ∉ l) /\ (forall p, FileWrite p ∉ l)).
  { intros l Hl. rewrite Forall_forall in Hl.
    split; intros p Hp; exact (Hl _ Hp). }
  assert (Hfr : forall (l : list event),
            Forall (fun ev => match ev with
                              | FileWrite p => p = ocr_path req_id
                              | _ => True
                              end) l ->
            forall path, path <> ocr_path req_id -> FileWrite path ∉ l).
  { intros l Hl path Hne Hp. rewrite Forall_forall in Hl.
    exact (Hne (Hl _ Hp)). }
  destruct (ocr_init_error E) as [msg|] eqn:Hi.
  { left. eexists. split; [by apply (run_init_failed msg)|].
    cbn [fs stdout log]. split_and!; auto; apply Hno, Forall_nil_2. }
  destruct (makedirs_error E (task_dir req_id)) as [msg|] eqn:Hm.
  { left. eexists. split; [by apply (run_makedirs_failed msg)|].
    cbn [fs stdout log]. split_and!; auto; apply Hno; by repeat constructor. }
  destruct (extract_text_pdfplumber E pdf_path) as [native|e] eqn:Hn.
  2:{ left. eexists. split; [by apply (run_fatal e)|].
      cbn [fs stdout log]. split_and!; eauto; apply Hno; by repeat constructor. }
  right. destruct (length (strip U native) <? 50) eqn:Hlen.
  - destruct (extract_text_paddleocr E pdf_path) as [text|e] eqn:Hocr.
    + destruct (write_error E (ocr_path req_id) (TextFile text))
        as [[msg residue]|] eqn:Ht.
      * eexists _, _.
        split; [by apply (run_ocr_unwritten_finish text native msg residue)|].
        cbn [fs stdout log]. split_and!; eauto;
          try (apply Hfr; by repeat constructor).
        intros path Hp. destruct residue; [|done].
        by rewrite lookup_insert_ne.
      * eexists _, _. split; [by apply (run_ocr_finish text native)|].
        cbn [fs stdout log]. split_and!; eauto;
          try (apply Hfr; by repeat constructor).
        intros path Hp. by rewrite lookup_insert_ne.
    + eexists _, _. split; [by apply (run_ocr_failed_finish e native)|].
      cbn [fs stdout log]. split_and!; eauto;
        try (apply Hfr; by repeat constructor).
  - eexists _, _. split; [by apply (run_native_finish native)|].
    cbn [fs stdout log]. split_and!; eauto;
      try (apply Hfr; by repeat constructor).
Qed.
End Runs.
(** ** Paths *)

Lemma path_join_relative a b :
  startswith_sep b = false -> path_join a b = a ++ sep_after a ++ b.
Proof.
  intros H. unfold path_join, sep_after. rewrite H.
  by destruct (match a with [] => true | _ => endswith_sep a end).
Qed.

Lemma out_path_eq req_id :
  out_path req_id
  = task_dir req_id ++ sep_after (task_dir req_id) ++ py "parsed_fallback.json".
Proof. by apply path_join_relative. Qed.

Lemma ocr_path_eq req_id :
  ocr_path req_id = task_dir req_id ++ sep_after (task_dir req_id) ++ py "ocr.txt".
Proof. by apply path_join_relative. Qed.


Lemma out_path_absolute req_id : exists rest, out_path req_id = ch "/" :: rest.
Proof. rewrite out_path_eq. unfold task_dir. simpl. eauto. Qed.

Lemma out_path_one_line req_id : nl ∉ req_id -> nl ∉ out_path req_id.
Proof.
  intros H. rewrite out_path_eq. unfold task_dir, sep_after.
  rewrite !not_elem_of_app. split_and!; auto.
  - by apply (bool_decide_unpack _).
  - destruct (match _ with [] => true | _ => _ end);
      by apply (bool_decide_unpack _).
  - by apply (bool_decide_unpack _).
Qed.



(** C7. When the OCR fallback is taken and the OCR extractor raises,
    the error goes to the error stream, the text becomes
    "FAILED_EXTRACTION", the JSON file is still written, the path is
    still printed, and the exit code is 0, on a host that lets the run
    through. *)
Theorem C7_ocr_failure_contained (U : Unicode) (E : env)
    (files : gmap str file) (req_id pdf_path native : str) (e : exn) :
  unhindered E req_id ->
  extract_text_pdfplumber E pdf_path = Ok native ->
  length (strip U native) < 50 ->
  extract_text_paddleocr E pdf_path = Raise e ->
  let '(w, code) := run U E files req_id pdf_path in
  code = 0%Z
  /\ stderr w = warning E ++ (py "OCR Failed: " ++ exn_str e) ++ [nl]
  /\ stdout w = out_path req_id ++ [nl]
  /\ FileWrite (out_path req_id) ∈ log w
  /\ exists record,
       fs w !! out_path req_id = Some (JsonFile record)
       /\ dict_get "raw_text" record = Some (JStr (py "FAILED_EXTRACTION"))
       /\ dict_get "_meta_method" record = Some (JStr (py "paddleocr")).
Proof.
  intros Hh Hn Hlen Hocr. apply Nat.ltb_lt in Hlen.
  rewrite (run_ocr_failed U E files req_id pdf_path e native) by done.
  split_and!; try done.
  - cbn [log]. rewrite !elem_of_cons. auto.
  - eexists. cbn [fs]. split; [apply lookup_insert_eq|]. by split.
Qed.

Lemma run_stdout (U : Unicode) (E : env) (files : gmap str file)
    (req_id pdf_path : str) :
  snd (run U E files req_id pdf_path) = 0%Z ->
  stdout (fst (run U E files req_id pdf_path)) = out_path req_id ++ [nl].
Proof.
  destruct (run_stages U E files req_id pdf_path)
    as [(w & -> & _)|(record & w & -> & _ & _ & _ & Hout & _)]; [done|].
  pose proof (finish_exit_code E req_id record w) as H.
  destruct (finish E req_id record w) as [w' code]. cbn [fst snd].
  intros ->. destruct H as [(_ & _ & _ & ->)|[? _]]; [|done].
  by rewrite Hout.
Qed.

(** C9. On a run that ends with exit code 0 the standard output is the
    absolute path of [parsed_fallback.json] followed by a newline and
    nothing else: one line (for a request identifier without a
    newline), the same for every PDF, environment and file system under
    the same request identifier. *)
Theorem C9_stdout_is_the_path (U : Unicode) (E : env) (files : gmap str file)
    (req_id pdf_path : str) :
  let '(w, code) := run U E files req_id pdf_path in
  code = 0%Z ->
  stdout w = out_path req_id ++ [nl]
  /\ (exists rest, out_path req_id = ch "/" :: rest)
  /\ (nl ∉ req_id -> split_on nl (stdout w) = [out_path req_id; []])
  /\ forall U' E' files' pdf_path',
       snd (run U' E' files' req_id pdf_path') = 0%Z ->
       stdout (fst (run U' E' files' req_id pdf_path')) = stdout w.
Proof.
  pose proof (run_stdout U E files req_id pdf_path) as Hout.
  destruct (run U E files req_id pdf_path) as [w code]. cbn [fst snd] in Hout.
  intros Hc. specialize (Hout Hc). split_and!.
  - done.
  - apply out_path_absolute.
  - intros Hnl. rewrite Hout.
    by rewrite split_on_cons by (by apply out_path_one_line).
  - intros U' E' files' pdf_path' Hc'. by rewrite run_stdout, Hout.
Qed.




Lemma C7_ocr_failure_contained_witness :
  unhindered scan_env (py "r1")
  /\ extract_text_pdfplumber scan_env (py "cv.pdf") = Ok (py "p. 1")
  /\ length (strip ascii_tables (py "p. 1")) < 50
  /\ snd (run ascii_tables scan_env ∅ (py "r1") (py "cv.pdf")) = 0%Z.
Proof.
  split; [by apply utf8_env_unhindered|].
  split; [reflexivity|]. split; [vm_compute; lia|].
  pose proof (C7_ocr_failure_contained ascii_tables scan_env ∅ (py "r1")
                (py "cv.pdf") (py "p. 1") _
                (utf8_env_unhindered _ _ (py "r1") eq_refl) eq_refl
                ltac:(vm_compute; lia) eq_refl) as H.
  destruct (run ascii_tables scan_env ∅ (py "r1") (py "cv.pdf")) as [w code].
  exact (proj1 H).
Defined.


Lemma C9_stdout_is_the_path_witness :
  snd (run ascii_tables scan_env ∅ (py "r1") (py "cv.pdf")) = 0%Z
  /\ stdout (fst (run ascii_tables scan_env ∅ (py "r1") (py "cv.pdf")))
     = py "/tmp/resume_tasks/r1/parsed_fallback.json" ++ [nl].
Proof.
  assert (Hc : snd (run ascii_tables scan_env ∅ (py "r1") (py "cv.pdf")) = 0%Z).
  { rewrite (run_ocr_failed ascii_tables scan_env ∅ (py "r1") (py "cv.pdf")
               (RuntimeError
                  (py "PaddleOCR not initialized but required for this image PDF."))
               (py "p. 1")); first [reflexivity | by apply utf8_env_unhindered]. }
  split; [exact Hc|].
  pose proof (C9_stdout_is_the_path ascii_tables scan_env ∅ (py "r1")
                (py "cv.pdf")) as H.
  destruct (run ascii_tables scan_env ∅ (py "r1") (py "cv.pdf")) as [w code].
  cbn [fst snd] in *. by destruct (H Hc) as [-> _].
Defined.

(** * Further properties of the script *)

(** ** The line pass as a partition of the content lines *)

Section Partition.
Context (U : Unicode).

Lemma fold_tagged lines : forall cur (bufs : gmap string (list str)) k,
  is_Some (bufs !! cur) ->
  (forall s, is_Some (section_buffers0 !! s) -> is_Some (bufs !! s)) ->
  snd (fold_left (bin_line U) lines (cur, bufs)) !! k
  = (fun b => b ++ map snd (filter (fun p => fst p = k) (tagged U cur lines)))
      <$> (bufs !! k).
Proof.
  induction lines as [|l lines IH]; intros cur bufs k Hcur Hkeys;
    cbn [fold_left tagged].
  - simpl. destruct (bufs !! k); simpl; [by rewrite app_nil_r|done].
  - destruct (strip U l) as [|c t] eqn:Hs.
    { rewrite bin_line_blank by done. by apply IH. }
    assert (Hne : strip U l <> []) by (by rewrite Hs).
    rewrite <- Hs. destruct (is_header U (strip U l)) as [section|] eqn:Hh.
    + rewrite (bin_line_header U cur bufs l section) by done.
      apply IH; [|done]. by apply Hkeys, (is_header_key U (strip U l)).
    + destruct Hcur as [b Hb].
      rewrite (bin_line_body U cur bufs l b) by done.
      rewrite IH.
      * rewrite lookup_insert. case_decide as Hk.
        -- subst k. rewrite Hb. simpl. rewrite filter_cons_True by done.
           simpl. by rewrite <- app_assoc.
        -- rewrite filter_cons_False by (simpl; congruence). done.
      * rewrite lookup_insert_eq. by eexists.
      * intros s Hs'. apply lookup_insert_is_Some'. auto.
Qed.

Lemma tagged_keys lines : forall cur,
  is_Some (section_buffers0 !! cur) ->
  Forall (fun p => is_Some (section_buffers0 !! fst p)) (tagged U cur lines).
Proof.
  induction lines as [|l lines IH]; intros cur Hcur; cbn [tagged];
    [constructor|].
  destruct (strip U l) as [|c t] eqn:Hs; [auto|].
  destruct (is_header U (c :: t)) as [section|] eqn:Hh.
  - apply IH. by apply (is_header_key U (c :: t)).
  - constructor; auto.
Qed.

Lemma tagged_stripped lines : forall cur p,
  p ∈ tagged U cur lines ->
  exists l, l ∈ lines /\ snd p = strip U l /\ snd p <> [].
Proof.
  induction lines as [|l lines IH]; intros cur p Hp; cbn [tagged] in Hp.
  { by apply elem_of_nil in Hp. }
  assert (Hrest : forall cur', p ∈ tagged U cur' lines ->
    exists l', l' ∈ l :: lines /\ snd p = strip U l' /\ snd p <> []).
  { intros cur' H. destruct (IH _ _ H) as (l' & ? & ? & ?).
    exists l'. split; [by right|done]. }
  destruct (strip U l) as [|c t] eqn:Hs; [eauto|].
  destruct (is_header U (c :: t)) as [section|]; [eauto|].
  apply elem_of_cons in Hp as [->|Hp]; [|eauto].
  exists l. simpl. split; [by left|]. by rewrite Hs.
Qed.

Lemma tagged_length lines : forall cur,
  length (tagged U cur lines)
  = length (filter (fun l => strip U l <> []
                             /\ is_header U (strip U l) = None) lines).
Proof.
  induction lines as [|l lines IH]; intros cur; cbn [tagged]; [done|].
  destruct (strip U l) as [|c t] eqn:Hs.
  { rewrite filter_cons_False by (rewrite Hs; tauto). apply IH. }
  destruct (is_header U (c :: t)) as [section|] eqn:Hh.
  - rewrite filter_cons_False by (rewrite Hs, Hh; by intros [_ ?]). apply IH.
  - rewrite filter_cons_True by (by rewrite Hs, Hh). simpl. by rewrite IH.
Qed.
End Partition.

(** X1. After the line pass, the buffer of each of the six sections is
    the list, in input order, of the stripped content lines that fall
    under that section; no other key has a buffer; and every content
    line falls under one of the six, so none is lost or buffered
    twice. *)
Theorem pass1_partition (U : Unicode) (lines : list str) (k : string) :
  (is_Some (section_buffers0 !! k) ->
   snd (pass1 U lines) !! k = Some (content_of U k lines))
  /\ (section_buffers0 !! k = None -> snd (pass1 U lines) !! k = None)
  /\ Forall (fun p => is_Some (section_buffers0 !! fst p))
       (tagged U "basics" lines)
  /\ length (tagged U "basics" lines)
     = length (filter (fun l => strip U l <> []
                               /\ is_header U (strip U l) = None) lines).
Proof.
  assert (H : snd (pass1 U lines) !! k
    = (fun b => b ++ content_of U k lines) <$> (section_buffers0 !! k)).
  { apply fold_tagged; [by eexists|done]. }
  split_and!.
  - intros [b Hb]. rewrite H, Hb. simpl. f_equal.
    assert (Hall : map_Forall (fun _ (b : list str) => b = []) section_buffers0).
    { unfold section_buffers0. repeat (apply map_Forall_insert_2; [done|]).
      apply map_Forall_empty. }
    by rewrite (Hall _ _ Hb).
  - intros Hn. by rewrite H, Hn.
  - apply tagged_keys. by eexists.
  - apply tagged_length.
Qed.

Example section_entered_twice :
  content_of ascii_tables "skills"
    [py "Skills"; py "Rocq"; py "Projects"; py "A prover"; py "";
     py "Technologies:"; py "  OCaml"]
  = [py "Rocq"; py "OCaml"].
Proof. reflexivity. Qed.

(** ** What the record keeps of the buffers *)

Lemma assembled_projects (U : Unicode) (bufs bufs' : gmap string (list str))
    (raw_text raw_text' : str) :
  (forall k, k <> "projects"%string -> bufs !! k = bufs' !! k) ->
  same_derived (assembled U bufs raw_text) (assembled U bufs' raw_text').
Proof.
  intros H key Hkey. unfold assembled.
  rewrite !(H "basics"%string), (H "summary"%string), (H "experience"%string),
    (H "education"%string), (H "skills"%string) by done.
  cbn [dict_get].
  repeat match goal with
         | |- context [String.eqb key ?k] =>
             destruct (String.eqb_spec key k); [try done|]
         end.
  done.
Qed.

Lemma fold_blank_lines (U : Unicode) (lines : list str) st :
  Forall (fun l => strip U l = []) lines ->
  fold_left (bin_line U) lines st = st.
Proof.
  induction 1 as [|l lines Hl _ IH]; cbn [fold_left]; [done|].
  by rewrite bin_line_blank.
Qed.

Lemma body_lines_no_nl (U : Unicode) (lines : list str) :
  Forall (body_line U) lines -> Forall (fun l => nl ∉ l) lines.
Proof. intros H. eapply Forall_impl; [exact H|]. by intros l (_ & _ & _ & ?). Qed.

(** X2. The lines under a Projects header are kept in no field: a text
    that ends with a Projects header and lines of content gives the
    same record, [raw_text] apart, as the text without them. *)
Theorem projects_not_emitted (U : Unicode) (ls ps : list str) (hp : str) :
  ls <> [] -> Forall (fun l => nl ∉ l) ls ->
  header_line U "projects" hp -> Forall (body_line U) ps ->
  exists r r',
    naive_structure_parser U (join [nl] (ls ++ hp :: ps)) = Ok r
    /\ naive_structure_parser U (join [nl] ls) = Ok r'
    /\ same_derived r r'.
Proof.
  intros Hne Hls (Hh1 & Hh2 & Hh3 & Hh4) Hps.
  eexists _, _. split; [apply parser_assembled|].
  split; [apply parser_assembled|].
  rewrite !split_on_join; try done.
  2:{ apply Forall_app. split; [done|].
      apply Forall_cons_2; [done|by apply (body_lines_no_nl U)]. }
  2:{ by destruct ls. }
  unfold pass1 at 1. rewrite fold_left_app. fold (pass1 U ls).
  pose proof (pass1_inv U ls) as (_ & Hkeys & _).
  destruct (pass1 U ls) as [cur bufs]. cbn [fold_left snd] in *.
  rewrite (bin_line_header U cur bufs hp "projects") by (by rewrite Hh2).
  destruct (Hkeys "projects"%string) as [b Hb]; [by eexists|].
  rewrite (fold_body_lines U ps _ _ b) by done.
  apply assembled_projects. intros k Hk. cbn [snd].
  by rewrite lookup_insert_ne.
Qed.

Lemma projects_not_emitted_witness :
  exists r r',
    naive_structure_parser ascii_tables
      (join [nl] ([py "Jane Doe"; py "Skills"; py "Rocq"]
                  ++ py "Key Projects:" :: [py "A regex matcher"; py "2024"]))
    = Ok r
    /\ naive_structure_parser ascii_tables
         (join [nl] [py "Jane Doe"; py "Skills"; py "Rocq"]) = Ok r'
    /\ same_derived r r'.
Proof.
  apply (projects_not_emitted ascii_tables).
  - done.
  - repeat (apply Forall_cons_2; [by apply (bool_decide_unpack _)|]).
    apply Forall_nil_2.
  - split_and!; try (by vm_compute). by apply (bool_decide_unpack _).
  - repeat (apply Forall_cons_2;
      [split_and!; try (by vm_compute); by apply (bool_decide_unpack _)|]).
    apply Forall_nil_2.
Defined.

(** X3. A Summary header with lines of content and then a Skills header
    with lines of content give [summary] as those lines joined by
    newlines and [skills.technical] as one entry per line; with nothing
    before the first header, the name, email and phone stay empty. *)
Theorem summary_and_skills (U : Unicode) (hs hk : str) (ss ks : list str) :
  header_line U "summary" hs -> Forall (body_line U) ss ->
  header_line U "skills" hk -> Forall (body_line U) ks ->
  exists r,
    naive_structure_parser U (join [nl] (hs :: ss ++ hk :: ks)) = Ok r
    /\ dict_get "summary" r = Some (JStr (join [nl] ss))
    /\ field2 r "skills" "technical" = Some (JList (map JStr ks))
    /\ field2 r "basics" "full_name" = Some (JStr [])
    /\ field2 r "basics" "email" = Some (JStr [])
    /\ field2 r "basics" "phone" = Some (JStr []).
Proof.
  intros (Hs1 & Hs2 & Hs3 & Hs4) Hss (Hk1 & Hk2 & Hk3 & Hk4) Hks.
  eexists. split; [apply parser_assembled|].
  rewrite split_on_join; [| |done].
  2:{ apply Forall_cons_2; [done|]. apply Forall_app.
      split; [by apply (body_lines_no_nl U)|].
      apply Forall_cons_2; [done|by apply (body_lines_no_nl U)]. }
  unfold pass1.
  change (hs :: ss ++ hk :: ks) with ([hs] ++ ss ++ [hk] ++ ks).
  rewrite !fold_left_app.
  change (fold_left (bin_line U) [hs] ?st) with (bin_line U st hs).
  rewrite (bin_line_header U _ _ hs "summary") by (by rewrite Hs2).
  rewrite (fold_body_lines U ss _ _ []) by done.
  change (fold_left (bin_line U) [hk] ?st) with (bin_line U st hk).
  rewrite (bin_line_header U _ _ hk "skills") by (by rewrite Hk2).
  rewrite (fold_body_lines U ks _ _ []) by done.
  unfold field2, assembled. cbn [dict_get String.eqb Ascii.eqb Bool.eqb snd].
  rewrite lookup_insert_eq, !lookup_insert_ne, lookup_insert_eq by done.
  by split_and!.
Qed.

Lemma summary_and_skills_witness :
  exists r,
    naive_structure_parser ascii_tables
      (join [nl] (py "PROFILE" :: [py "Proof engineer."; py "Ten years."]
                  ++ py "Core Competencies:" :: [py "Rocq"; py "OCaml"]))
    = Ok r
    /\ dict_get "summary" r
       = Some (JStr (join [nl] [py "Proof engineer."; py "Ten years."]))
    /\ field2 r "skills" "technical"
       = Some (JList (map JStr [py "Rocq"; py "OCaml"]))
    /\ field2 r "basics" "full_name" = Some (JStr [])
    /\ field2 r "basics" "email" = Some (JStr [])
    /\ field2 r "basics" "phone" = Some (JStr []).
Proof.
  apply (summary_and_skills ascii_tables).
  - split_and!; try (by vm_compute). by apply (bool_decide_unpack _).
  - repeat (apply Forall_cons_2;
      [split_and!; try (by vm_compute); by apply (bool_decide_unpack _)|]).
    apply Forall_nil_2.
  - split_and!; try (by vm_compute). by apply (bool_decide_unpack _).
  - repeat (apply Forall_cons_2;
      [split_and!; try (by vm_compute); by apply (bool_decide_unpack _)|]).
    apply Forall_nil_2.
Defined.

(** X4. A text whose every line is blank gives the initial record:
    every derived field empty, [raw_text] the text. *)
Theorem blank_text_record (U : Unicode) (raw_text : str) :
  Forall (fun l => strip U l = []) (split_on nl raw_text) ->
  naive_structure_parser U raw_text = Ok (resume_data0 raw_text).
Proof.
  intros H. rewrite parser_assembled. unfold pass1.
  by rewrite fold_blank_lines.
Qed.

Lemma blank_text_record_witness :
  naive_structure_parser ascii_tables (py "   " ++ [nl; nl; 9%N; 13%N; nl])
  = Ok (resume_data0 (py "   " ++ [nl; nl; 9%N; 13%N; nl])).
Proof.
  apply (blank_text_record ascii_tables).
  repeat (apply Forall_cons_2; [by vm_compute|]). apply Forall_nil_2.
Defined.

(** ** The classifier on ASCII lines *)

Section Tokens.
Context (U : Unicode).

Lemma split_ws_spaces ws : spaces U ws -> split_ws U ws = [].
Proof. induction 1 as [|c ws Hc _ IH]; simpl; [done|]. by rewrite Hc. Qed.

Lemma split_ws_lstrip s : split_ws U (lstrip U s) = split_ws U s.
Proof.
  induction s as [|c s IH]; [done|]. cbn [lstrip].
  destruct (u_isspace U c) eqn:Hc; [|done].
  rewrite IH. cbn [split_ws]. by rewrite Hc.
Qed.

Lemma split_ws_trail ws s : spaces U ws -> split_ws U (s ++ ws) = split_ws U s.
Proof.
  intros Hws. induction s as [|c s IH]; [by apply split_ws_spaces|].
  cbn [app split_ws]. rewrite IH.
  destruct (u_isspace U c); [done|].
  destruct s as [|c' s]; [|done]. cbn [app].
  destruct Hws as [|w ws Hw Hws]; [done|]. by rewrite Hw.
Qed.

Lemma rstrip_split s : exists trail, s = rstrip U s ++ trail /\ spaces U trail.
Proof.
  destruct (lstrip_split U (rev s)) as (pre & Hpre & Hsp).
  exists (rev pre). split; [|by apply Forall_rev].
  unfold rstrip. rewrite <- rev_app_distr, <- Hpre. by rewrite rev_involutive.
Qed.

Lemma split_ws_strip s : split_ws U (strip U s) = split_ws U s.
Proof.
  unfold strip. destruct (rstrip_split (lstrip U s)) as (trail & Heq & Hsp).
  rewrite <- (split_ws_lstrip s). rewrite Heq at 2. by rewrite split_ws_trail.
Qed.
End Tokens.

Lemma split_ws_lower s :
  split_ws ascii_tables (map ascii_lower_char s)
  = map (map ascii_lower_char) (split_ws ascii_tables s).
Proof.
  induction s as [|c s IH]; [done|]. cbn [map split_ws u_isspace ascii_tables].
  rewrite ascii_isspace_lower, IH.
  destruct (ascii_isspace c); [done|].
  destruct s as [|c' s]; [done|]. cbn [map].
  rewrite ascii_isspace_lower.
  destruct (ascii_isspace c'); [done|].
  by destruct (split_ws ascii_tables (c' :: s)).
Qed.

Lemma patterns_short section patterns p :
  In (section, patterns) SECTION_HEADERS -> In p patterns ->
  length (split_ws ascii_tables p) <= 4
  /\ length (split_ws ascii_tables (p ++ [ch ":"])) <= 4.
Proof.
  intros Hs Hp.
  pose proof (all_patterns_spec
    (fun _ p => (length (split_ws ascii_tables p) <=? 4)
                && (length (split_ws ascii_tables (p ++ [ch ":"])) <=? 4))
    eq_refl _ _ _ Hs Hp) as H.
  simpl in H. apply andb_true_iff in H as [H1 H2].
  by apply Nat.leb_le in H1, H2.
Qed.

Section AsciiRule.
Context (U : Unicode).
Hypothesis U_ascii : ascii_compatible U.

Lemma is_header_of_stripped line section :
  is_header U line = Some section <-> is_header U (strip U line) = Some section.
Proof.
  rewrite !(is_header_Some U U_ascii). by rewrite strip_idem, split_ws_strip.
Qed.

Lemma is_header_rule line section :
  Forall is_ascii line ->
  is_header U line = Some section <->
  exists patterns p,
    In (section, patterns) SECTION_HEADERS /\ In p patterns
    /\ (map ascii_lower_char (strip U line) = p
        \/ map ascii_lower_char (strip U line) = p ++ [ch ":"]).
Proof.
  intros Ha. rewrite is_header_of_stripped.
  rewrite (is_header_ascii_exact U U_ascii)
    by (by apply strip_is_ascii || apply strip_idem).
  split; [by intros [? _]|]. intros H. split; [done|].
  destruct H as (ps & p & Hs & Hp & Hkey).
  rewrite (split_ws_ascii U U_ascii) by (by apply strip_is_ascii).
  rewrite <- (length_map (map ascii_lower_char)), <- split_ws_lower.
  destruct (patterns_short _ _ _ Hs Hp) as [H1 H2].
  by destruct Hkey as [-> | ->].
Qed.

End AsciiRule.

(** X5. On an ASCII line the cap of four tokens decides nothing: the
    line is a header of section [S] exactly when, stripped and
    lowercased, it is one of the patterns of [S] or such a pattern and
    a colon. *)
Theorem is_header_cap_redundant (U : Unicode) (line : str) (S : string) :
  ascii_compatible U -> Forall is_ascii line ->
  is_header U line = Some S <->
  exists patterns p,
    In (S, patterns) SECTION_HEADERS /\ In p patterns
    /\ (map ascii_lower_char (strip U line) = p
        \/ map ascii_lower_char (strip U line) = p ++ [ch ":"]).
Proof. intros HU Ha. by apply is_header_rule. Qed.

Lemma is_header_cap_redundant_witness :
  is_header ascii_tables (py "  ABOUT ME:  ") = Some "summary"%string.
Proof.
  apply (is_header_cap_redundant ascii_tables);
    [by split|by apply all_ascii_spec|].
  exists [py "summary"; py "profile"; py "objective"; py "about me"],
         (py "about me").
  split; [simpl; tauto|]. split; [simpl; tauto|]. by right.
Defined.

(** X6. Two ASCII lines that differ only in the case of their letters
    and in the whitespace around them are classified alike. *)
Theorem is_header_case_and_margin (U : Unicode) (l1 l2 : str) :
  ascii_compatible U -> Forall is_ascii l1 -> Forall is_ascii l2 ->
  map ascii_lower_char (strip U l1) = map ascii_lower_char (strip U l2) ->
  is_header U l1 = is_header U l2.
Proof.
  intros HU H1 H2 Hkey.
  assert (Hiff : forall s, is_header U l1 = Some s <-> is_header U l2 = Some s).
  { intros s. rewrite !(is_header_rule U HU) by done. by rewrite Hkey. }
  destruct (is_header U l1) as [s1|].
  - symmetry. by apply Hiff.
  - destruct (is_header U l2) as [s2|]; [|done].
    by destruct (proj2 (Hiff s2) eq_refl).
Qed.

Lemma is_header_case_and_margin_witness :
  is_header ascii_tables (py " Work HISTORY") = is_header ascii_tables (py "work history  ").
Proof.
  apply (is_header_case_and_margin ascii_tables);
    [by split|by apply all_ascii_spec|by apply all_ascii_spec|reflexivity].
Defined.

(** X7. Of the two [re.match] calls of [is_header] the first never
    decides: whatever the pattern without the colon accepts, the
    pattern with the optional colon accepts. *)
Theorem first_match_call_redundant (U : Unicode) (pattern s : str) :
  re_match (header_re U pattern) s || re_match (header_colon_re U pattern) s
  = re_match (header_colon_re U pattern) s.
Proof.
  destruct (re_match (header_re U pattern) s) eqn:H; [|done].
  symmetry. simpl. apply re_match_iff in H as (m & post & -> & H).
  apply re_match_iff. exists m, post. split; [done|].
  unfold header_re, header_colon_re in *. simpl in *.
  inversion H as [| |? ? ? H'|]; subst. apply matches_bol.
  apply matches_rep_inv in H' as (lead & m' & -> & Hlead & _ & _ & H').
  apply matches_rep; simpl; auto; [lia|].
  apply matches_lit_inv in H' as (m'' & -> & H').
  apply matches_lit.
  apply (matches_rep (is_ch ":") 0 (Some 1) _ _ [] m''); simpl; auto.
  by rewrite Nat.add_0_r.
Qed.

(** ** The extractors and the orchestrator *)

Lemma textless_pages pages :
  Forall textless pages -> omap kept_text pages = [].
Proof.
  induction 1 as [|pg pages [-> | ->] _ IH]; [done|..]; exact IH.
Qed.

(** X8. A PDF whose pages all lack text, and any PDF when pdfplumber is
    missing, has the empty native text and goes to OCR: on a host that
    lets the run through, the OCR extractor is called and the record is
    stamped "paddleocr". *)
Theorem textless_pdf_goes_to_ocr (U : Unicode) (E : env)
    (files : gmap str file) (req_id pdf_path : str) :
  unhindered E req_id ->
  (pdfplumber E = None
   \/ exists pdf_pages pages,
        pdfplumber E = Some pdf_pages
        /\ pdf_pages pdf_path = Returned pages /\ Forall textless pages) ->
  let w := fst (run U E files req_id pdf_path) in
  extract_text_pdfplumber E pdf_path = Ok []
  /\ OcrCall pdf_path ∈ log w
  /\ exists record,
       fs w !! out_path req_id = Some (JsonFile record)
       /\ dict_get "_meta_method" record = Some (JStr (py "paddleocr")).
Proof.
  intros Hh H w. subst w.
  assert (Hn : extract_text_pdfplumber E pdf_path = Ok []).
  { unfold extract_text_pdfplumber.
    destruct H as [-> | (f & pages & -> & -> & Hp)]; [done|].
    simpl. by rewrite textless_pages. }
  split; [done|].
  assert (Hlen : (length (strip U []) <? 50) = true) by reflexivity.
  destruct (extract_text_paddleocr E pdf_path) as [text|e] eqn:Hocr.
  - destruct (write_error E (ocr_path req_id) (TextFile text))
      as [[msg residue]|] eqn:Ht.
    + rewrite (run_ocr_unwritten U E files req_id pdf_path text [] msg residue)
        by done.
      cbn [fst log fs]. split; [rewrite !elem_of_cons; auto|].
      eexists. split; [apply lookup_insert_eq|done].
    + rewrite (run_ocr U E files req_id pdf_path text []) by done.
      cbn [fst log fs]. split; [rewrite !elem_of_cons; auto|].
      eexists. split; [apply lookup_insert_eq|done].
  - rewrite (run_ocr_failed U E files req_id pdf_path e []) by done.
    cbn [fst log fs]. split; [rewrite !elem_of_cons; auto|].
    eexists. split; [apply lookup_insert_eq|done].
Qed.

Lemma textless_pdf_goes_to_ocr_witness :
  unhindered jane_scan_env (py "r7")
  /\ OcrCall (py "scan.pdf")
     ∈ log (fst (run ascii_tables jane_scan_env ∅ (py "r7") (py "scan.pdf"))).
Proof.
  split; [by apply utf8_env_unhindered|].
  apply (textless_pdf_goes_to_ocr ascii_tables jane_scan_env);
    [by apply utf8_env_unhindered|].
  right. eexists _, _. split; [reflexivity|]. split; [reflexivity|].
  repeat constructor; by (left + right).
Defined.

(** X9. What the OCR extractor returns is the recognised lines joined
    by newlines, pages without result skipped; when no recognised line
    holds a newline, the line pass of the builder on that text is the
    line pass on the recognised lines, one line each. *)
Theorem ocr_lines_are_pass_lines (U : Unicode) (E : env) (pdf_path : str)
    ocr_pages (results : list (option (list str))) :
  ocr E = Some ocr_pages -> ocr_pages pdf_path = Returned results ->
  Forall (fun l => nl ∉ l) (recognized results) ->
  exists text,
    extract_text_paddleocr E pdf_path = Ok text
    /\ text = join [nl] (recognized results)
    /\ pass1 U (split_on nl text) = pass1 U (recognized results).
Proof.
  intros Ho Hr Hnl. eexists. split.
  { unfold extract_text_paddleocr. rewrite Ho, Hr. reflexivity. }
  split; [done|]. fold (recognized results).
  destruct (recognized results) as [|l ls] eqn:Hl; [reflexivity|].
  by rewrite split_on_join.
Qed.

Lemma ocr_lines_are_pass_lines_witness :
  exists text,
    extract_text_paddleocr
      (utf8_env None
         (Some (fun _ => Returned [Some [py "Jane Doe"; py "Skills"];
                                   None; Some [py "Rocq"]])))
      (py "scan.pdf") = Ok text
    /\ text = join [nl] [py "Jane Doe"; py "Skills"; py "Rocq"]
    /\ pass1 ascii_tables (split_on nl text)
       = pass1 ascii_tables [py "Jane Doe"; py "Skills"; py "Rocq"].
Proof.
  apply (ocr_lines_are_pass_lines ascii_tables
           (utf8_env None
              (Some (fun _ => Returned [Some [py "Jane Doe"; py "Skills"];
                                        None; Some [py "Rocq"]])))
           (py "scan.pdf") _ _ eq_refl eq_refl).
  repeat (apply Forall_cons_2; [by apply (bool_decide_unpack _)|]).
  apply Forall_nil_2.
Defined.

(** X10. Once the fallback is taken the native text is forgotten: the
    record written is decided by what the OCR extractor gives and by
    whether its transcript can be written, so two runs with short
    native texts, the same OCR outcome and hosts that accept the same
    transcripts write the same JSON, and an OCR failure leaves nothing
    of the PDF in it. *)
Theorem fallback_forgets_native_text (U : Unicode) (E1 E2 : env)
    (files1 files2 : gmap str file) (req_id pdf1 pdf2 native1 native2 : str) :
  unhindered E1 req_id -> unhindered E2 req_id ->
  extract_text_pdfplumber E1 pdf1 = Ok native1 ->
  extract_text_pdfplumber E2 pdf2 = Ok native2 ->
  length (strip U native1) < 50 -> length (strip U native2) < 50 ->
  extract_text_paddleocr E1 pdf1 = extract_text_paddleocr E2 pdf2 ->
  (forall text,
     write_error E1 (ocr_path req_id) (TextFile text) = None
     <-> write_error E2 (ocr_path req_id) (TextFile text) = None) ->
  fs (fst (run U E1 files1 req_id pdf1)) !! out_path req_id
  = fs (fst (run U E2 files2 req_id pdf2)) !! out_path req_id.
Proof.
  intros Hh1 Hh2 Hn1 Hn2 Hl1 Hl2 Hocr Hw. apply Nat.ltb_lt in Hl1, Hl2.
  destruct (extract_text_paddleocr E2 pdf2) as [text|e] eqn:Ho2.
  - specialize (Hw text).
    destruct (write_error E1 (ocr_path req_id) (TextFile text))
      as [[msg1 residue1]|] eqn:Ht1;
      destruct (write_error E2 (ocr_path req_id) (TextFile text))
        as [[msg2 residue2]|] eqn:Ht2;
      try (by destruct Hw as [Hw1 Hw2]; first [specialize (Hw1 eq_refl)
                                              |specialize (Hw2 eq_refl)]).
    + rewrite (run_ocr_unwritten U E1 files1 req_id pdf1 text native1
                 msg1 residue1),
        (run_ocr_unwritten U E2 files2 req_id pdf2 text native2 msg2 residue2)
        by done.
      cbn [fst fs]. by rewrite !lookup_insert_eq.
    + rewrite (run_ocr U E1 files1 req_id pdf1 text native1),
        (run_ocr U E2 files2 req_id pdf2 text native2) by done.
      cbn [fst fs]. by rewrite !lookup_insert_eq.
  - rewrite (run_ocr_failed U E1 files1 req_id pdf1 e native1),
      (run_ocr_failed U E2 files2 req_id pdf2 e native2) by done.
    cbn [fst fs]. by rewrite !lookup_insert_eq.
Qed.

Lemma fallback_forgets_native_text_witness :
  unhindered scan_env (py "r1") /\ unhindered (utf8_env None None) (py "r1")
  /\ fs (fst (run ascii_tables scan_env ∅ (py "r1") (py "cv.pdf")))
       !! out_path (py "r1")
     = fs (fst (run ascii_tables (utf8_env None None) ∅
                  (py "r1") (py "other.pdf"))) !! out_path (py "r1").
Proof.
  split; [by apply utf8_env_unhindered|].
  split; [by apply utf8_env_unhindered|].
  apply (fallback_forgets_native_text ascii_tables scan_env
           (utf8_env None None) ∅ ∅ (py "r1")
           (py "cv.pdf") (py "other.pdf") (py "p. 1") []);
    first [by apply utf8_env_unhindered | reflexivity | vm_compute; lia
          | done].
Defined.

(** X11. When the text-layer extractor raises, the run ends there with
    exit code 1: nothing is printed on the standard output, no file is
    written and the OCR extractor is not tried. *)
Theorem text_layer_failure_is_fatal (U : Unicode) (E : env)
    (files : gmap str file) (req_id pdf_path : str) (e : exn) :
  extract_text_pdfplumber E pdf_path = Raise e ->
  let '(w, code) := run U E files req_id pdf_path in
  code = 1%Z /\ stdout w = [] /\ fs w = files
  /\ (forall p, OcrCall p ∉ log w) /\ (forall p, FileWrite p ∉ log w).
Proof.
  intros H.
  destruct (run_stages U E files req_id pdf_path)
    as [(w & -> & Hfs & Hout & Hocr & Hwr & _)
       |(? & ? & _ & _ & _ & [native Hn] & _)]; [done|congruence].
Qed.

Lemma text_layer_failure_is_fatal_witness :
  snd (run ascii_tables
         (utf8_env (Some (fun _ => Failed (py "No /Root object!"))) None)
         ∅ (py "r1") (py "broken.pdf")) = 1%Z.
Proof.
  pose proof (text_layer_failure_is_fatal ascii_tables
    (utf8_env (Some (fun _ => Failed (py "No /Root object!"))) None)
    ∅ (py "r1") (py "broken.pdf") _ eq_refl) as H.
  destruct (run _ _ _ _ _) as [w code]. exact (proj1 H).
Defined.



(** ** Request directories *)

Lemma sep_after_plain req_id :
  plain_id req_id -> sep_after (task_dir req_id) = [ch "/"].
Proof.
  intros (z & Hz & Hne). unfold sep_after, endswith_sep, task_dir.
  rewrite last_app, Hz.
  destruct (N.eqb_spec z (ch "/")) as [|_]; [done|]. reflexivity.
Qed.

Lemma sep_after_slash req_id :
  sep_after (task_dir (req_id ++ [ch "/"])) = [].
Proof.
  unfold sep_after, endswith_sep, task_dir.
  rewrite app_assoc, last_snoc. rewrite <- app_assoc. reflexivity.
Qed.

(** X13. Request identifiers that are not empty and do not end in "/"
    have different output files when they differ; but an identifier
    and the same identifier followed by "/" share the output file and
    the OCR transcript. *)
Theorem request_paths (r1 r2 : str) :
  plain_id r1 ->
  (plain_id r2 -> out_path r1 = out_path r2 -> r1 = r2)
  /\ out_path (r1 ++ [ch "/"]) = out_path r1
  /\ ocr_path (r1 ++ [ch "/"]) = ocr_path r1.
Proof.
  intros H1. split_and!.
  - intros H2 Heq. rewrite !out_path_eq, !sep_after_plain in Heq by done.
    unfold task_dir in Heq. rewrite <- !app_assoc in Heq.
    apply app_inv_head in Heq. by apply app_inv_tail in Heq.
  - rewrite !out_path_eq, sep_after_slash, sep_after_plain by done.
    unfold task_dir. by rewrite <- !app_assoc.
  - rewrite !ocr_path_eq, sep_after_slash, sep_after_plain by done.
    unfold task_dir. by rewrite <- !app_assoc.
Qed.

Lemma request_paths_witness :
  out_path (py "r1" ++ [ch "/"]) = out_path (py "r1").
Proof.
  apply (request_paths (py "r1") (py "r2")).
  exists (ch "1"). by split.
Defined.

(** ** The error stream *)

(** X14. A run that reaches its end without an OCR failure leaves on
    the error stream the import warning and nothing else: the warning
    that paddleocr is missing also when the run never needed OCR, and
    nothing at all when the OCR extractor returned and its transcript
    was written; a transcript that cannot be written is reported as an
    OCR failure. *)
Theorem stderr_without_ocr_failure (U : Unicode) (E : env)
    (files : gmap str file) (req_id pdf_path native : str) :
  unhindered E req_id ->
  extract_text_pdfplumber E pdf_path = Ok native ->
  let w := fst (run U E files req_id pdf_path) in
  (50 <= length (strip U native) -> stderr w = warning E)
  /\ (50 <= length (strip U native) -> ocr E = None ->
      stderr w
      = py "Warning: paddleocr not installed. OCR will fail if needed." ++ [nl])
  /\ (forall text,
        length (strip U native) < 50 ->
        extract_text_paddleocr E pdf_path = Ok text ->
        match write_error E (ocr_path req_id) (TextFile text) with
        | None => stderr w = []
        | Some (msg, _) => stderr w = (py "OCR Failed: " ++ msg) ++ [nl]
        end).
Proof.
  intros Hh Hn w. subst w. split_and!.
  - intros Hlen. apply Nat.ltb_ge in Hlen.
    by rewrite (run_native U E files req_id pdf_path native).
  - intros Hlen Ho. apply Nat.ltb_ge in Hlen.
    rewrite (run_native U E files req_id pdf_path native) by done.
    cbn [fst stderr]. unfold warning. by rewrite Ho.
  - intros text Hlen Hocr. apply Nat.ltb_lt in Hlen.
    assert (Hw : warning E = []).
    { unfold warning. unfold extract_text_paddleocr in Hocr.
      by destruct (ocr E). }
    destruct (write_error E (ocr_path req_id) (TextFile text))
      as [[msg residue]|] eqn:Ht.
    + rewrite (run_ocr_unwritten U E files req_id pdf_path text native
                 msg residue) by done.
      cbn [fst stderr]. by rewrite Hw.
    + rewrite (run_ocr U E files req_id pdf_path text native) by done.
      exact Hw.
Qed.

Lemma stderr_without_ocr_failure_witness :
  unhindered jane_scan_env (py "r1")
  /\ stderr (fst (run ascii_tables jane_scan_env ∅ (py "r1") (py "cv.pdf")))
     = [].
Proof.
  split; [by apply utf8_env_unhindered|].
  destruct (stderr_without_ocr_failure ascii_tables jane_scan_env
    ∅ (py "r1") (py "cv.pdf") [] (utf8_env_unhindered _ _ (py "r1") eq_refl)
    eq_refl) as (_ & _ & H).
  apply (H (py "Jane Doe")); [vm_compute; lia|reflexivity].
Defined.

(** ** The name and the email are single lines *)

Section SingleLine.
Context (U : Unicode).

Lemma lstrip_subset s x : x ∈ lstrip U s -> x ∈ s.
Proof.
  destruct (lstrip_split U s) as (pre & Heq & _). intros H.
  rewrite Heq. apply elem_of_app. by right.
Qed.

Lemma strip_subset s x : x ∈ strip U s -> x ∈ s.
Proof.
  unfold strip, rstrip. intros H.
  apply list_elem_of_In, in_rev, list_elem_of_In, lstrip_subset in H.
  apply list_elem_of_In, in_rev, list_elem_of_In in H.
  by apply lstrip_subset.
Qed.

Lemma split_on_no_nl s : Forall (fun l => nl ∉ l) (split_on nl s).
Proof.
  induction s as [|c s IH]; simpl.
  - apply Forall_cons_2; [apply not_elem_of_nil|apply Forall_nil_2].
  - destruct (N.eqb_spec c nl) as [->|Hc].
    + apply Forall_cons_2; [apply not_elem_of_nil|done].
    + destruct (split_on nl s) as [|w ws]; simpl.
      * apply Forall_cons_2; [|apply Forall_nil_2].
        rewrite not_elem_of_cons. split; [congruence|apply not_elem_of_nil].
      * apply Forall_cons in IH as [Hw Hws]. apply Forall_cons_2; [|done].
        rewrite not_elem_of_cons. split; [congruence|done].
Qed.

Lemma buffered_line_of_text raw_text k b x :
  snd (pass1 U (split_on nl raw_text)) !! k = Some b -> x ∈ b ->
  (nl ∉ x) /\ strip U x = x /\ x <> [].
Proof.
  intros Hb Hx.
  pose proof (pass1_inv U (split_on nl raw_text)) as (_ & _ & Hinv).
  specialize (Hinv k b Hb). rewrite Forall_forall in Hinv.
  destruct (Hinv x Hx) as [Hne Hs]. split; [|done].
  unfold pass1 in Hb.
  rewrite (fold_tagged U) in Hb; [|by eexists|done].
  destruct (section_buffers0 !! k) as [b0|] eqn:Hk; [|done].
  assert (Hall : map_Forall (fun _ (b : list str) => b = []) section_buffers0).
  { unfold section_buffers0. repeat (apply map_Forall_insert_2; [done|]).
    apply map_Forall_empty. }
  rewrite (Hall _ _ Hk) in Hb. simpl in Hb. injection Hb as <-.
  apply list_elem_of_In, in_map_iff in Hx as (p & <- & Hp).
  apply list_elem_of_In, list_elem_of_filter in Hp as [_ Hp].
  apply tagged_stripped in Hp as (l & Hl & Heq & _). rewrite Heq.
  pose proof (split_on_no_nl raw_text) as Hnl. rewrite Forall_forall in Hnl.
  intros Hin. by apply strip_subset, (Hnl l Hl) in Hin.
Qed.

Hypothesis U_ascii : ascii_compatible U.

Lemma email_shaped_no_nl m : email_shaped U m -> nl ∉ m.
Proof.
  assert (Hw : cls_w U nl = false).
  { unfold cls_w. by rewrite (ac_isalnum U U_ascii) by done. }
  assert (Hlocal : forall a : str,
    Forall (fun x => cls_w U x || is_ch "." x || is_ch "-" x = true) a -> nl ∉ a).
  { intros a Ha Hin. rewrite Forall_forall in Ha. apply Ha in Hin.
    by rewrite Hw in Hin. }
  intros (a & b & c & -> & _ & _ & _ & Ha & Hb & Hc).
  rewrite !not_elem_of_app. split_and!; auto.
  - by apply (bool_decide_unpack _).
  - by apply (bool_decide_unpack _).
  - intros Hin. rewrite Forall_forall in Hc. apply Hc in Hin. congruence.
Qed.
End SingleLine.

(** X15. The name and the email of the record never hold a newline:
    the name is one stripped line of the text, and the email lies
    within one line of the basics buffer. *)
Theorem name_and_email_single_line (U : Unicode) (raw_text : str) :
  ascii_compatible U ->
  exists r name email,
    naive_structure_parser U raw_text = Ok r
    /\ field2 r "basics" "full_name" = Some (JStr name)
    /\ field2 r "basics" "email" = Some (JStr email)
    /\ (nl ∉ name) /\ strip U name = name /\ (nl ∉ email).
Proof.
  intros HU.
  pose proof (pass1_inv U (split_on nl raw_text)) as (_ & Hkeys & _).
  destruct (Hkeys "basics"%string) as [b Hb]; [by eexists|].
  exists (assembled U (snd (pass1 U (split_on nl raw_text))) raw_text),
    (hd [] b), (first_match (EMAIL_RE U) (join [nl] b)).
  split; [apply parser_assembled|].
  unfold field2, assembled. cbn [dict_get String.eqb Ascii.eqb Bool.eqb].
  rewrite Hb. cbn [default].
  split; [reflexivity|]. split; [reflexivity|].
  assert (Hname : (nl ∉ hd [] b) /\ strip U (hd [] b) = hd [] b).
  { destruct b as [|x b]; [split; [apply not_elem_of_nil|done]|].
    destruct (buffered_line_of_text U raw_text _ _ x Hb) as (? & ? & _);
      [by left|done]. }
  split_and!; try apply Hname.
  destruct (first_match_first_shaped (EMAIL_RE U) (email_shaped U)
              (join [nl] b) (EMAIL_RE_shape U)) as [[-> _]|(i & _ & Hm & _)].
  - apply not_elem_of_nil.
  - by apply (email_shaped_no_nl U HU).
Qed.

Lemma name_and_email_single_line_witness :
  exists r name email,
    naive_structure_parser ascii_tables jane_block = Ok r
    /\ field2 r "basics" "full_name" = Some (JStr name)
    /\ field2 r "basics" "email" = Some (JStr email)
    /\ (nl ∉ name) /\ strip ascii_tables name = name /\ (nl ∉ email).
Proof. apply (name_and_email_single_line ascii_tables jane_block). by split. Defined.

(** ** The basics buffer ends at the first header *)

Section Basics.
Context (U : Unicode).

Lemma is_header_not_basics line section :
  is_header U line = Some section -> section <> "basics"%string.
Proof.
  intros H. apply scan_sections_sound in H as (ps & _ & H & _).
  simpl in H. destruct H as [H|[H|[H|[H|[H|[]]]]]]; by injection H as <- _.
Qed.

Lemma tagged_outside_basics lines : forall cur,
  cur <> "basics"%string ->
  filter (fun p => fst p = "basics"%string) (tagged U cur lines) = [].
Proof.
  induction lines as [|l lines IH]; intros cur Hcur; cbn [tagged]; [done|].
  destruct (strip U l) as [|c t]; [auto|].
  destruct (is_header U (c :: t)) as [section|] eqn:Hh.
  - apply IH. by apply (is_header_not_basics (c :: t)).
  - rewrite filter_cons_False by done. auto.
Qed.

Lemma tagged_basics_prefix pre h post section : forall cur,
  strip U h <> [] -> is_header U (strip U h) = Some section ->
  filter (fun p => fst p = "basics"%string) (tagged U cur (pre ++ h :: post))
  = filter (fun p => fst p = "basics"%string) (tagged U cur pre).
Proof.
  intros cur Hne Hh. revert cur.
  induction pre as [|l pre IH]; intros cur; cbn [app tagged].
  - destruct (strip U h) as [|c t]; [done|]. rewrite Hh.
    apply tagged_outside_basics. by apply (is_header_not_basics (c :: t)).
  - destruct (strip U l) as [|c t]; [auto|].
    destruct (is_header U (c :: t)); [auto|].
    destruct (decide (cur = "basics"%string)) as [->|Hc].
    + rewrite !filter_cons_True by done. by rewrite IH.
    + rewrite !filter_cons_False by done. auto.
Qed.

Lemma basics_buffer lines :
  snd (pass1 U lines) !! "basics"%string
  = Some (map snd (filter (fun p => fst p = "basics"%string)
                     (tagged U "basics" lines))).
Proof.
  unfold pass1. rewrite (fold_tagged U); [|by eexists|done]. reflexivity.
Qed.
End Basics.

(** X16. Name, email and phone come from the text before the first
    header only: whatever follows a header line, the [basics] object
    of the record is that of the text cut before that line. *)
Theorem basics_end_at_first_header (U : Unicode) (pre post : list str)
    (h : str) (section : string) :
  pre <> [] -> Forall (fun l => nl ∉ l) (pre ++ h :: post) ->
  strip U h <> [] -> is_header U (strip U h) = Some section ->
  exists r r',
    naive_structure_parser U (join [nl] (pre ++ h :: post)) = Ok r
    /\ naive_structure_parser U (join [nl] pre) = Ok r'
    /\ dict_get "basics" r = dict_get "basics" r'.
Proof.
  intros Hpre Hnl Hne Hh.
  eexists _, _. split; [apply parser_assembled|].
  split; [apply parser_assembled|].
  rewrite !split_on_join; try done.
  2:{ by apply Forall_app in Hnl as [? _]. }
  2:{ by destruct pre. }
  unfold assembled. cbn [dict_get String.eqb Ascii.eqb Bool.eqb].
  by rewrite !basics_buffer, (tagged_basics_prefix U pre h post section).
Qed.

Lemma basics_end_at_first_header_witness :
  exists r r',
    naive_structure_parser ascii_tables
      (join [nl] ([py "Jane Doe"] ++ py "Experience"
                  :: [py "Acme, hr@acme.example, 555 123 4567"]))
    = Ok r
    /\ naive_structure_parser ascii_tables (join [nl] [py "Jane Doe"]) = Ok r'
    /\ dict_get "basics" r = dict_get "basics" r'.
Proof.
  apply (basics_end_at_first_header ascii_tables [py "Jane Doe"]
           [py "Acme, hr@acme.example, 555 123 4567"] (py "Experience")
           "experience").
  - done.
  - repeat (apply Forall_cons_2; [by apply (bool_decide_unpack _)|]).
    apply Forall_nil_2.
  - by vm_compute.
  - by vm_compute.
Defined.

(** X17. On a host that lets the run through, the JSON file holds what
    the builder returns for the text in use, with [_meta_method] added
    after its keys: the native text as extracted (not trimmed) on the
    native path, the OCR text when the OCR extractor returns and its
    transcript is written, the sentinel when the extractor or the
    write of the transcript raises. *)
Theorem written_record (U : Unicode) (E : env) (files : gmap str file)
    (req_id pdf_path native : str) :
  unhindered E req_id ->
  extract_text_pdfplumber E pdf_path = Ok native ->
  let w := fst (run U E files req_id pdf_path) in
  let written (method raw_text : str) :=
    exists r,
      naive_structure_parser U raw_text = Ok r
      /\ fs w !! out_path req_id
         = Some (JsonFile (r ++ [("_meta_method"%string, JStr method)])) in
  (50 <= length (strip U native) -> written (py "pdfplumber") native)
  /\ (length (strip U native) < 50 ->
      match extract_text_paddleocr E pdf_path with
      | Ok text =>
          match write_error E (ocr_path req_id) (TextFile text) with
          | None => written (py "paddleocr") text
          | Some _ => written (py "paddleocr") FAILED_EXTRACTION
          end
      | Raise _ => written (py "paddleocr") FAILED_EXTRACTION
      end).
Proof.
  intros Hh Hn w written. subst w written. split.
  - intros Hlen. apply Nat.ltb_ge in Hlen.
    eexists. split; [apply parser_assembled|].
    rewrite (run_native U E files req_id pdf_path native) by done.
    cbn [fst fs]. by rewrite lookup_insert_eq.
  - intros Hlen. apply Nat.ltb_lt in Hlen.
    destruct (extract_text_paddleocr E pdf_path) as [text|e] eqn:Hocr.
    + destruct (write_error E (ocr_path req_id) (TextFile text))
        as [[msg residue]|] eqn:Ht.
      * eexists. split; [apply parser_assembled|].
        rewrite (run_ocr_unwritten U E files req_id pdf_path text native
                   msg residue) by done.
        cbn [fst fs]. by rewrite lookup_insert_eq.
      * eexists. split; [apply parser_assembled|].
        rewrite (run_ocr U E files req_id pdf_path text native) by done.
        cbn [fst fs]. by rewrite lookup_insert_eq.
    + eexists. split; [apply parser_assembled|].
      rewrite (run_ocr_failed U E files req_id pdf_path e native) by done.
      cbn [fst fs]. by rewrite lookup_insert_eq.
Qed.

Lemma written_record_witness :
  unhindered surrogate_env (py "r1")
  /\ exists r,
       naive_structure_parser ascii_tables FAILED_EXTRACTION = Ok r
       /\ fs (fst (run ascii_tables surrogate_env ∅ (py "r1") (py "cv.pdf")))
            !! out_path (py "r1")
          = Some (JsonFile
                    (r ++ [("_meta_method"%string, JStr (py "paddleocr"))])).
Proof.
  split; [by apply utf8_env_unhindered|].
  destruct (written_record ascii_tables surrogate_env ∅ (py "r1") (py "cv.pdf")
              (py "p. 1") (utf8_env_unhindered _ _ (py "r1") eq_refl) eq_refl)
    as [_ H].
  apply H. vm_compute. lia.
Defined.

(** ** Failures of the host *)


